(** * ZaectorCore scanner runner: a model of [runner.py]

    [runner.py] is a command-line script: it attaches to (or launches) a
    Chromium instance through Playwright, injects a scanner script, prints
    what the scanner returns as JSON and then decides whether the browser
    stays open.  Everything it does is a call to the outside (file system,
    Playwright, the two output channels, the process services), so the model
    is a small trace-and-exception monad run against a [world] that answers
    each call.  The standard-library functions the script relies on
    ([str.lower], [len], [json.dumps] with [indent=2]) are modelled after
    their documented behaviour; the primary output channel is a buffered
    stream, and the watchdog thread runs beside the main flow under a
    schedule of turns. *)

From Stdlib Require Import String Ascii List ZArith NArith Bool Lia.
From Stdlib Require Import Decimal DecimalString DecimalPos.
Import ListNotations.

Local Open Scope list_scope.
Local Open Scope string_scope.

Set Implicit Arguments.
Set Warnings "-register-all".

(* ===================================================================== *)
(** ** Python values, exceptions and text helpers *)
(* ===================================================================== *)

(** The classes of exception the handlers of the script tell apart:
    [except Exception] takes the first only, [except KeyboardInterrupt] the
    second only, a bare [except:] takes all of them; [sys.exit(n)] raises
    [SystemExit]. *)
Inductive exc_class : Type :=
| ExceptionClass
| KeyboardInterruptClass
| SystemExitClass (code : Z)
| OtherBaseExceptionClass.

Record exc : Type := MkExc { exc_cls : exc_class; exc_str : string }.

Definition is_Exception (e : exc) : bool :=
  match exc_cls e with ExceptionClass => true | _ => false end.

Definition is_KeyboardInterrupt (e : exc) : bool :=
  match exc_cls e with KeyboardInterruptClass => true | _ => false end.

(** What a call to the outside answers: it returns or it raises. *)
Inductive outcome (A : Type) : Type :=
| Returns (a : A)
| Raises (e : exc).
Arguments Raises {A} e.

(** [str.lower()] on the ASCII range. *)
Definition lower_ascii (c : ascii) : ascii :=
  let n := nat_of_ascii c in
  if andb (65 <=? n)%nat (n <=? 90)%nat then ascii_of_nat (n + 32) else c.

Fixpoint lower (s : string) : string :=
  match s with
  | EmptyString => EmptyString
  | String c r => String (lower_ascii c) (lower r)
  end.

(** [str(n)] for an integer. *)
Definition str_of_Z (z : Z) : string := NilZero.string_of_int (Z.to_int z).
Definition str_of_nat (n : nat) : string := str_of_Z (Z.of_nat n).

(** [str(b)] for a boolean, as an f-string shows it. *)
Definition str_of_bool (b : bool) : string := if b then "True" else "False".

Definition newline : string := String (ascii_of_nat 10) EmptyString.

(** The double-quote character. *)
Definition dquote : ascii := Eval cbv in ascii_of_nat 34.

(** [s[:n]] and [s[n:]]. *)
Fixpoint take (n : nat) (s : string) : string :=
  match n, s with
  | S k, String c r => String c (take k r)
  | _, _ => EmptyString
  end.

Fixpoint drop (n : nat) (s : string) : string :=
  match n, s with
  | S k, String _ r => drop k r
  | _, _ => s
  end.

(* ===================================================================== *)
(** ** [json.dumps(obj, indent=2)] *)
(* ===================================================================== *)

Module Json.

(** A Python string is a sequence of code points. *)
Definition pystr : Type := list N.

Inductive nzdigit : Type := N1 | N2 | N3 | N4 | N5 | N6 | N7 | N8 | N9.

(** A float, by what [repr] works from: the special values, the two
    zeros, and otherwise the sign, the shortest decimal digit string
    (first digit non-zero) and the position of the decimal point. *)
Inductive pyfloat : Type :=
| FNan
| FInf
| FNegInf
| FZero (neg : bool)
| FFinite (neg : bool) (lead : nzdigit) (more : uint) (decpt : Z).

(** What [page.evaluate] hands back: JSON-like data, plus objects such as
    [datetime] that [json] has no encoding for and that have no length,
    known by the name of their class. *)
Inductive value : Type :=
| VNone
| VBool (b : bool)
| VInt (z : Z)
| VFloat (f : pyfloat)
| VStr (s : pystr)
| VList (items : list value)
| VDict (members : list (pystr * value))
| VOpaque (cls : string).

(** [type(obj).__name__] *)
Definition type_name (v : value) : string :=
  match v with
  | VNone => "NoneType"
  | VBool _ => "bool"
  | VInt _ => "int"
  | VFloat _ => "float"
  | VStr _ => "str"
  | VList _ => "list"
  | VDict _ => "dict"
  | VOpaque cls => cls
  end.

(** [len(obj)]: defined on sequences and mappings, [TypeError] elsewhere. *)
Definition len (v : value) : option nat :=
  match v with
  | VStr s => Some (length s)
  | VList l => Some (length l)
  | VDict m => Some (length m)
  | _ => None
  end.

(** *** Strings: [py_encode_basestring_ascii] *)

Definition hex_digit (n : N) : ascii :=
  match N.land n 15 with
  | 0 => "0" | 1 => "1" | 2 => "2" | 3 => "3" | 4 => "4" | 5 => "5"
  | 6 => "6" | 7 => "7" | 8 => "8" | 9 => "9" | 10 => "a" | 11 => "b"
  | 12 => "c" | 13 => "d" | 14 => "e" | _ => "f"
  end%N%char.

(** ['\\u{0:04x}'.format(n)] for [n] below 65536. *)
Definition u_escape (n : N) : string :=
  String "\" (String "u"
    (String (hex_digit (N.shiftr n 12)) (String (hex_digit (N.shiftr n 8))
    (String (hex_digit (N.shiftr n 4)) (String (hex_digit n) EmptyString))))).

Definition escape_char (c : N) : string :=
  if (c =? 34)%N then String "\" (String dquote EmptyString) else
  if (c =? 92)%N then "\\" else
  if (c =? 8)%N then "\b" else
  if (c =? 12)%N then "\f" else
  if (c =? 10)%N then "\n" else
  if (c =? 13)%N then "\r" else
  if (c =? 9)%N then "\t" else
  if andb (32 <=? c)%N (c <=? 126)%N then String (ascii_of_N c) EmptyString else
  if (c <? 65536)%N then u_escape c else
  let v := (c - 65536)%N in
  u_escape (N.lor 55296 (N.land (N.shiftr v 10) 1023)) ++
  u_escape (N.lor 56320 (N.land v 1023)).

Fixpoint escape_chars (s : pystr) : string :=
  match s with
  | [] => EmptyString
  | c :: r => escape_char c ++ escape_chars r
  end.

Definition encode_str (s : pystr) : string :=
  String dquote (escape_chars s ++ String dquote EmptyString).

(** *** Numbers: [int.__repr__] and [float.__repr__] *)

Definition nz_char (d : nzdigit) : ascii :=
  match d with
  | N1 => "1" | N2 => "2" | N3 => "3" | N4 => "4" | N5 => "5"
  | N6 => "6" | N7 => "7" | N8 => "8" | N9 => "9"
  end%char.

Fixpoint zeros (n : nat) : string :=
  match n with O => EmptyString | S k => String "0" (zeros k) end.

(** The exponent of the scientific form: a sign and at least two digits. *)
Definition exp_str (e : Z) : string :=
  (if (e <? 0)%Z then "-" else "+") ++
  (if (Z.abs e <? 10)%Z then "0" else EmptyString) ++ str_of_Z (Z.abs e).

(** [repr] of a non-zero finite float: the scientific form when the decimal
    point lies at or below -4 or above 16, the positional form otherwise,
    which always shows a fractional part. *)
Definition finite_repr (neg : bool) (lead : nzdigit) (more : uint) (decpt : Z)
  : string :=
  let ms := NilEmpty.string_of_uint more in
  let n := Z.of_nat (S (String.length ms)) in
  (if neg then "-" else EmptyString) ++
  (if orb (decpt <=? -4)%Z (16 <? decpt)%Z then
     String (nz_char lead)
       (match ms with EmptyString => EmptyString | _ => String "." ms end)
     ++ String "e" (exp_str (decpt - 1))
   else if (decpt <=? 0)%Z then
     "0." ++ zeros (Z.to_nat (- decpt)) ++ String (nz_char lead) ms
   else if (decpt <? n)%Z then
     String (nz_char lead) (take (Z.to_nat (decpt - 1)) ms)
     ++ String "." (drop (Z.to_nat (decpt - 1)) ms)
   else
     String (nz_char lead) ms ++ zeros (Z.to_nat (decpt - n)) ++ ".0").

(** [floatstr] of the encoder, with the default [allow_nan=True]. *)
Definition float_str (f : pyfloat) : string :=
  match f with
  | FNan => "NaN"
  | FInf => "Infinity"
  | FNegInf => "-Infinity"
  | FZero neg => if neg then "-0.0" else "0.0"
  | FFinite neg lead more decpt => finite_repr neg lead more decpt
  end.

(** *** The encoder *)

Fixpoint spaces (n : nat) : string :=
  match n with O => EmptyString | S k => String " " (spaces k) end.

(** A line break followed by the indentation of nesting level [lvl]. *)
Definition newline_indent (lvl : nat) : string := newline ++ spaces (2 * lvl).

(** Objects the encoder has a rule for; anything else makes [json.dumps]
    raise [TypeError] before it returns any text. *)
Fixpoint serializable (v : value) : bool :=
  match v with
  | VOpaque _ => false
  | VList l => forallb serializable l
  | VDict m => forallb (fun kv => serializable (snd kv)) m
  | _ => true
  end.

(** The class of the first object, in the order the encoder goes through
    the value, that it has no rule for: the one the [TypeError] names. *)
Fixpoint first_opaque (v : value) : option string :=
  match v with
  | VOpaque cls => Some cls
  | VList l =>
      (fix among (l : list value) : option string :=
         match l with
         | [] => None
         | x :: r =>
             match first_opaque x with
             | Some cls => Some cls
             | None => among r
             end
         end) l
  | VDict m =>
      (fix among (l : list (pystr * value)) : option string :=
         match l with
         | [] => None
         | (_, x) :: r =>
             match first_opaque x with
             | Some cls => Some cls
             | None => among r
             end
         end) m
  | _ => None
  end.

(** The text for an object at nesting level [lvl]: an empty container on
    one line, otherwise one item per line, items separated by a comma, keys
    separated from values by a colon and a space. *)
Fixpoint encode (lvl : nat) (v : value) : string :=
  match v with
  | VNone => "null"
  | VBool true => "true"
  | VBool false => "false"
  | VInt z => str_of_Z z
  | VFloat f => float_str f
  | VStr s => encode_str s
  | VList [] => "[]"
  | VList (x :: xs) =>
      "[" ++ newline_indent (S lvl) ++ encode (S lvl) x ++
      (fix more (l : list value) : string :=
         match l with
         | [] => newline_indent lvl ++ "]"
         | y :: ys => "," ++ newline_indent (S lvl) ++ encode (S lvl) y ++ more ys
         end) xs
  | VDict [] => "{}"
  | VDict ((k, x) :: ms) =>
      "{" ++ newline_indent (S lvl) ++ encode_str k ++ ": " ++ encode (S lvl) x ++
      (fix more (l : list (pystr * value)) : string :=
         match l with
         | [] => newline_indent lvl ++ "}"
         | (k', y) :: ys =>
             "," ++ newline_indent (S lvl) ++ encode_str k' ++ ": " ++
             encode (S lvl) y ++ more ys
         end) ms
  | VOpaque _ => EmptyString
  end.

Definition type_error (cls : string) : exc :=
  MkExc ExceptionClass ("Object of type " ++ cls ++ " is not JSON serializable").

(** [json.dumps(obj, indent=2)]: the text is put together only after the
    whole value has been gone through, so a value with an object the
    encoder has no rule for gives no text at all. *)
Definition dumps (v : value) : outcome string :=
  match first_opaque v with
  | None => Returns (encode 0 v)
  | Some cls => Raises (type_error cls)
  end.

End Json.

(* ===================================================================== *)
(** ** Calls to the outside, traces and the monad of the script *)
(* ===================================================================== *)

(** The two browser handles a run can hold: the one [connect_over_cdp]
    returns and the one [launch] returns. *)
Inductive browser : Type := AttachedBrowser | LaunchedBrowser.

Record page : Type := MkPage { page_id : nat; page_url : string }.

Inductive call : Type :=
| StartWatchdog                       (* threading.Thread(...).start() *)
| ReadStdin                           (* sys.stdin.read() *)
| OsExit (code : Z)                   (* os._exit(code) *)
| ReadFile (path : string)            (* open(path, 'r', encoding='utf-8') and f.read() *)
| StartPlaywright                     (* entering [with sync_playwright() as p] *)
| StopPlaywright                      (* leaving that block *)
| ConnectOverCdp (endpoint : string)  (* p.chromium.connect_over_cdp(endpoint) *)
| NewPage (b : browser)               (* b.new_page() *)
| Launch (headless : bool) (args : list string)
| Goto (pg : page) (url : string)
| WaitForLoadState (pg : page) (state : string) (timeout : Z)
| Evaluate (pg : page) (expression : string)
| FlushStdout                         (* sys.stdout.flush() *)
| IsConnected (b : browser)
| Sleep (seconds : Z)                 (* time.sleep(seconds) *)
| Close (b : browser).                (* b.close() *)

(** A trace lists, in order, every call issued (whatever its outcome),
    every text printed on the diagnostic channel (to which [print] adds a
    line break) and, for every call that writes to the primary output
    channel, the characters that reached the reader of the channel during
    the call (there may be none). *)
Inductive event : Type :=
| Call (c : call)
| Stderr (line : string)
| Stdout (text : string).

Definition trace : Type := list event.

(** How a computation stands: a value, an exception in flight, the process
    ended by [os._exit] (no handler and no clean-up runs), or not finished
    (blocked in a call that does not return, or the loop fuel ran out). *)
Inductive result (A : Type) : Type :=
| Val (a : A)
| Exc (e : exc)
| HardExit (code : Z)
| Pending.
Arguments Exc {A} e.
Arguments HardExit {A} code.
Arguments Pending {A}.

Definition M (A : Type) : Type := (trace * result A)%type.

Definition ret {A} (a : A) : M A := ([], Val a).

Definition bind {A B} (m : M A) (f : A -> M B) : M B :=
  match m with
  | (t, Val a) => let (t', r) := f a in ((t ++ t')%list, r)
  | (t, Exc e) => (t, Exc e)
  | (t, HardExit c) => (t, HardExit c)
  | (t, Pending) => (t, Pending)
  end.

Notation "x <- m ;; k" := (bind m (fun x => k))
  (at level 61, m at next level, right associativity).
Notation "m ;; k" := (bind m (fun _ => k))
  (at level 61, right associativity).

Definition raise {A} (e : exc) : M A := ([], Exc e).

(** [print(line, file=sys.stderr)].  The diagnostic channel is taken to
    accept what is printed on it: a write to it that fails is not among the
    runs described here. *)
Definition log (line : string) : M unit := ([Stderr line], Val tt).

(** A call and the answer the world gives to it. *)
Definition request {A} (c : call) (o : outcome A) : M A :=
  ([Call c], match o with Returns a => Val a | Raises e => Exc e end).

(** A library function without effect that may raise. *)
Definition lift {A} (o : outcome A) : M A :=
  ([], match o with Returns a => Val a | Raises e => Exc e end).

(** How a call that writes to the primary output channel goes.
    [sys.stdout] is a buffered stream: what the script hands to it reaches
    the reader of the channel when the stream passes it on, which is not
    for the script to say.  During a call the stream passes on some leading
    part of what it holds, [passed_on] characters of it, and the call then
    returns or raises.  What the stream still holds when the script is over
    is for the interpreter to pass on at exit, or lost with [os._exit]; a
    trace ends with the script. *)
Record write : Type := MkWrite { passed_on : nat; write_end : outcome unit }.

(** [print(text)] on the primary output channel: the text and a line break
    go to the stream; the value is what the stream still holds when the
    call returns. *)
Definition print_stdout (text : string) (a : write) : M string :=
  let data := text ++ newline in
  ([Stdout (take (passed_on a) data)],
   match write_end a with
   | Returns _ => Val (drop (passed_on a) data)
   | Raises e => Exc e
   end).

(** [sys.stdout.flush()] with [held] in the stream: when the call returns
    all of it has been passed on, when it raises some leading part. *)
Definition flush_stdout (held : string) (a : write) : M unit :=
  match write_end a with
  | Returns _ => ([Call FlushStdout; Stdout held], Val tt)
  | Raises e => ([Call FlushStdout; Stdout (take (passed_on a) held)], Exc e)
  end.

(** [try: body except C1 ...: h1 except C2 ...: h2]: the first clause
    whose class takes the exception handles it; what a handler raises is
    not offered to the other clauses. *)
Fixpoint select_clause {A} (clauses : list ((exc -> bool) * (exc -> M A)))
  (e : exc) : option (M A) :=
  match clauses with
  | [] => None
  | (takes, handler) :: rest =>
      if takes e then Some (handler e) else select_clause rest e
  end.

Definition try_except {A} (body : M A)
  (clauses : list ((exc -> bool) * (exc -> M A))) : M A :=
  match body with
  | (t, Exc e) =>
      match select_clause clauses e with
      | Some (t', r) => ((t ++ t')%list, r)
      | None => (t, Exc e)
      end
  | other => other
  end.

Definition catch_all (_ : exc) : bool := true.

(** [os._exit(code)]. *)
Definition os_exit {A} (code : Z) : M A := ([Call (OsExit code)], HardExit code).

(** [sys.exit(code)]. *)
Definition sys_exit {A} (code : Z) : M A :=
  raise (MkExc (SystemExitClass code) (str_of_Z code)).

(** A process that ends normally or by [SystemExit] has an exit status of
    its own making; [os._exit] sets it directly. *)
Definition exit_status {A} (r : result A) : option Z :=
  match r with
  | Val _ => Some 0%Z
  | HardExit c => Some c
  | Exc e => match exc_cls e with SystemExitClass c => Some c | _ => None end
  | Pending => None
  end.

(* ===================================================================== *)
(** ** Two threads *)
(* ===================================================================== *)

(** [threading.Thread(target=parent_watchdog, daemon=True).start()] puts
    the watchdog on a thread of its own.  From then on the steps of the
    thread fall among those of the main flow in an order the script has no
    say in; a schedule, read turn by turn, gives that order. *)
Inductive turn : Type := MainTurn | WatchdogTurn.

Definition starts_watchdog (ev : event) : bool :=
  match ev with Call StartWatchdog => true | _ => false end.

(** [race sch started main r dog]: the main flow has the events [main]
    still to come and then ends as [r]; the thread has the events [dog]
    still to come; [started] says whether the thread exists yet.
    - On a turn of the main flow its next event takes place.  With none
      left the main flow is over, and with it the process: the thread is a
      daemon.  Turns the thread gets after the last event of the main flow
      and before that turn fall in the time the interpreter takes to shut
      down.  (A main flow still in its polling loop when the fuel runs out
      has no further event to show, and the schedule goes on.)
    - On a turn of the thread its next event takes place; an [os._exit]
      ends the process there and then, whatever the main flow had still to
      do.  A thread that is not started yet, is blocked in its read or is
      gone lets the turn pass.
    - When the schedule is used up the thread gets no further turn. *)
Fixpoint race (sch : list turn) (started : bool) (main : trace)
  (r : result unit) (dog : trace) {struct sch} : M unit :=
  match sch with
  | [] => (main, r)
  | MainTurn :: sch' =>
      match main with
      | ev :: main' =>
          let (t, r') :=
            race sch' (orb started (starts_watchdog ev)) main' r dog in
          (ev :: t, r')
      | [] =>
          match r with
          | Pending => race sch' started [] r dog
          | _ => ([], r)
          end
      end
  | WatchdogTurn :: sch' =>
      if started then
        match dog with
        | Call (OsExit code) :: _ => ([Call (OsExit code)], HardExit code)
        | ev :: dog' =>
            let (t, r') := race sch' started main r dog' in (ev :: t, r')
        | [] => race sch' started main r []
        end
      else race sch' started main r dog
  end.

(* ===================================================================== *)
(** ** The world *)
(* ===================================================================== *)

(** The answers of the outside to the calls of one run.  [browser.contexts],
    [context.pages] and [page.url] are properties of objects already held
    and are read as data.  [page.evaluate] is called twice, [is_connected]
    and [sleep] once per round of the polling loop: their answers are
    indexed by the number of the call.  The read on standard input returns,
    raises, or (no answer) blocks for good. *)
Record world : Type := MkWorld {
  w_stdin_read : option (outcome string);
  w_read_file : string -> outcome string;
  w_start_playwright : outcome unit;
  w_connect_over_cdp : string -> outcome unit;
  w_contexts : list (list page);
  w_new_page : browser -> outcome page;
  w_launch : bool -> list string -> outcome unit;
  w_goto : page -> string -> outcome unit;
  w_wait_for_load_state : page -> outcome unit;
  w_evaluate : nat -> page -> string -> outcome Json.value;
  w_print : string -> write;
  w_flush : write;
  w_is_connected : nat -> outcome bool;
  w_sleep : nat -> outcome unit;
  w_close : browser -> outcome unit
}.

(* ===================================================================== *)
(** ** The script *)
(* ===================================================================== *)

Definition DEBUG_PORT : Z := 9222.

(** The locals [browser], [page] and [is_existing_browser] once phase 1 is
    over. *)
Record session : Type := MkSession {
  s_browser : browser;
  s_page : page;
  s_is_existing : bool
}.

(** The address of the debugging endpoint. *)
Definition endpoint : string := "http://localhost:" ++ str_of_Z DEBUG_PORT.

Definition scan_entry_point : string := "window.__PLAYWRIGHT_SCANNER__.scan()".

(** The [TypeError] of [len] on an object without length. *)
Definition len_type_error (v : Json.value) : exc :=
  MkExc ExceptionClass
        ("object of type '" ++ Json.type_name v ++ "' has no len()").

(** [len(elements)] inside the f-string of the completion message. *)
Definition py_len (v : Json.value) : M nat :=
  match Json.len v with
  | Some n => ret n
  | None => raise (len_type_error v)
  end.

Section Script.

Variable w : world.

(** [parent_watchdog]: block on standard input; leave through [os._exit]. *)
Definition parent_watchdog : M unit :=
  try_except
    (match w_stdin_read w with
     | Some o => request ReadStdin o
     | None => ([Call ReadStdin], Pending)
     end ;;
     os_exit 0)
    [(is_Exception, fun _ => os_exit 1)].

(** The body of [with sync_playwright() as p]: the block is left through
    the context manager whether the body ends or raises. *)
Definition with_playwright {A} (body : M A) : M A :=
  request StartPlaywright (w_start_playwright w) ;;
  match body with
  | (t, Val a) => ((t ++ [Call StopPlaywright])%list, Val a)
  | (t, Exc e) => ((t ++ [Call StopPlaywright])%list, Exc e)
  | other => other
  end.

(** Phase 1, the [try] body: attach, then take the first page of the first
    context or open one. *)
Definition attach_existing : M session :=
  let endpoint := "http://localhost:" ++ str_of_Z DEBUG_PORT in
  request (ConnectOverCdp endpoint) (w_connect_over_cdp w endpoint) ;;
  log "[SCANNER] SUCCESS - Connected to existing browser" ;;
  match w_contexts w with
  | (pg :: _) :: _ =>
      log ("[SCANNER] Using existing page: " ++ page_url pg) ;;
      ret (MkSession AttachedBrowser pg true)
  | _ =>
      pg <- request (NewPage AttachedBrowser) (w_new_page w AttachedBrowser) ;;
      log "[SCANNER] Created new page in existing browser" ;;
      ret (MkSession AttachedBrowser pg true)
  end.

(** Phase 1, the [except Exception as e] clause: launch a browser, open a
    page, and navigate when a target URL was given. *)
Definition launch_new (target_url headless_mode : string) (e : exc) : M session :=
  log ("[SCANNER] No existing browser found (" ++ exc_str e ++
       "), launching new one...") ;;
  let is_headless := String.eqb (lower headless_mode) "true" in
  let args := ["--remote-debugging-port=" ++ str_of_Z DEBUG_PORT] in
  request (Launch is_headless args) (w_launch w is_headless args) ;;
  pg <- request (NewPage LaunchedBrowser) (w_new_page w LaunchedBrowser) ;;
  log "[SCANNER] Browser launched successfully" ;;
  (if String.eqb target_url EmptyString then ret tt
   else
     log ("[SCANNER] Navigating to " ++ target_url ++ "...") ;;
     request (Goto pg target_url) (w_goto w pg target_url) ;;
     try_except
       (request (WaitForLoadState pg "networkidle" 5000)
                (w_wait_for_load_state w pg) ;;
        log "[SCANNER] Page loaded")
       [(catch_all,
         fun _ => log "[SCANNER] Page load timeout (continuing anyway)")]) ;;
  ret (MkSession LaunchedBrowser pg false).

Definition resolve_session (target_url headless_mode : string) : M session :=
  log ("[SCANNER] Attempting to connect to existing browser on port " ++
       str_of_Z DEBUG_PORT ++ "...") ;;
  try_except attach_existing
    [(is_Exception, launch_new target_url headless_mode)].

(** Phase 2, the inner [try]: print the result as JSON and flush; an
    [Exception] is passed over. *)
Definition print_json (elements : Json.value) : M unit :=
  try_except
    (text <- lift (Json.dumps elements) ;;
     held <- print_stdout text (w_print w text) ;;
     flush_stdout held (w_flush w))
    [(is_Exception, fun _ => ret tt)].

(** Phase 2: inject the script, call the entry point, print the result. *)
Definition scan (pg : page) (js_scanner_code : string) : M unit :=
  log "[SCANNER] Starting DOM scan..." ;;
  try_except
    (request (Evaluate pg js_scanner_code) (w_evaluate w 0 pg js_scanner_code) ;;
     elements <- request (Evaluate pg scan_entry_point)
                         (w_evaluate w 1 pg scan_entry_point) ;;
     n <- py_len elements ;;
     log ("[SCANNER] Scan complete - found " ++ str_of_nat n ++ " elements") ;;
     print_json elements)
    [(is_Exception,
      fun e => log ("[SCANNER] ERROR - Scan failed: " ++ exc_str e))].

(** The polling loop [while browser.is_connected(): time.sleep(1)]; [i]
    counts the rounds already made. *)
Fixpoint poll (fuel : nat) (b : browser) (i : nat) : M unit :=
  match fuel with
  | O => ([], Pending)
  | S fuel' =>
      connected <- request (IsConnected b) (w_is_connected w i) ;;
      if (connected : bool) then
        request (Sleep 1) (w_sleep w i) ;;
        poll fuel' b (S i)
      else ret tt
  end.

(** Phase 3: what becomes of the browser. *)
Definition finalize (fuel : nat) (keep_open : string) (s : session) : M unit :=
  let should_keep_open := String.eqb (lower keep_open) "true" in
  log ("[SCANNER] Browser lifecycle - is_existing: " ++
       str_of_bool (s_is_existing s) ++ ", keep_open: " ++
       str_of_bool should_keep_open) ;;
  if s_is_existing s then
    log "[SCANNER] Connected to existing browser - leaving it open (not calling close())"
  else if should_keep_open then
    log "[SCANNER] Browser launched. Keeping open for CDP access..." ;;
    log "[SCANNER] Browser will stay open until manually closed by user" ;;
    try_except
      (poll fuel (s_browser s) 0 ;;
       log "[SCANNER] Browser was closed by user")
      [(is_KeyboardInterrupt,
        fun _ => log "[SCANNER] Scan interrupted by user");
       (is_Exception,
        fun e => log ("[SCANNER] Browser monitoring error: " ++ exc_str e))]
  else
    log "[SCANNER] Keep Open disabled - closing browser..." ;;
    request (Close (s_browser s)) (w_close w (s_browser s)) ;;
    log "[SCANNER] Browser closed".

(** The main flow.  Starting the watchdog thread is one of its calls (it
    is taken to succeed); what the thread does beside the main flow is
    [parent_watchdog], and [process] below puts the two together. *)
Definition run_scan (fuel : nat)
  (js_file_path target_url headless_mode keep_open : string) : M unit :=
  log ("[SCANNER] Starting scan - URL: " ++ target_url ++ ", Headless: " ++
       headless_mode ++ ", Keep Open: " ++ keep_open) ;;
  request StartWatchdog (Returns tt) ;;
  try_except
    (js_scanner_code <- request (ReadFile js_file_path)
                                (w_read_file w js_file_path) ;;
     with_playwright
       (s <- resolve_session target_url headless_mode ;;
        scan (s_page s) js_scanner_code ;;
        finalize fuel keep_open s))
    [(is_Exception,
      fun e => log ("CRITICAL ERROR: " ++ exc_str e) ;; sys_exit 1)].

Definition index_error : exc :=
  MkExc ExceptionClass "list index out of range".

(** The [__main__] block: defaults for the two optional arguments. *)
Definition main (fuel : nat) (argv : list string) : M unit :=
  let headless := if (3 <? length argv)%nat then nth 3 argv "false" else "false" in
  let keep_open := if (4 <? length argv)%nat then nth 4 argv "true" else "true" in
  match nth_error argv 1, nth_error argv 2 with
  | Some path, Some url => run_scan fuel path url headless keep_open
  | _, _ => raise index_error
  end.

(** The process: the main flow [m] with the watchdog thread beside it. *)
Definition process (sch : list turn) (m : M unit) : M unit :=
  race sch false (fst m) (snd m) (fst parent_watchdog).

End Script.

(** *** Reading a trace *)

(** What the reader of the primary output channel received. *)
Fixpoint stdout_of (t : trace) : string :=
  match t with
  | [] => EmptyString
  | Stdout text :: r => text ++ stdout_of r
  | _ :: r => stdout_of r
  end.

(** The lines the diagnostic channel received. *)
Fixpoint stderr_of (t : trace) : list string :=
  match t with
  | [] => []
  | Stderr line :: r => line :: stderr_of r
  | _ :: r => stderr_of r
  end.

(** The calls issued. *)
Fixpoint calls_of (t : trace) : list call :=
  match t with
  | [] => []
  | Call c :: r => c :: calls_of r
  | _ :: r => calls_of r
  end.

Definition is_close (c : call) : bool :=
  match c with Close _ => true | _ => false end.

Definition is_evaluate (c : call) : bool :=
  match c with Evaluate _ _ => true | _ => false end.

Definition is_poll (c : call) : bool :=
  match c with IsConnected _ => true | _ => false end.

(** The trace up to the point where phase 1 starts, when the script file
    was read and Playwright started. *)
Definition preamble (path url hm ko : string) : trace :=
  [Stderr ("[SCANNER] Starting scan - URL: " ++ url ++ ", Headless: " ++
           hm ++ ", Keep Open: " ++ ko);
   Call StartWatchdog;
   Call (ReadFile path);
   Call StartPlaywright].

(** What leaving the [with] block and then the outer [try] makes of the
    outcome of the block: Playwright is stopped, and an [Exception] becomes
    the critical-error line and [sys.exit(1)]. *)
Definition conclude (m : M unit) : M unit :=
  match m with
  | (t, Val a) => ((t ++ [Call StopPlaywright])%list, Val a)
  | (t, Exc e) =>
      if is_Exception e then
        ((t ++ [Call StopPlaywright; Stderr ("CRITICAL ERROR: " ++ exc_str e)])%list,
         Exc (MkExc (SystemExitClass 1) (str_of_Z 1)))
      else ((t ++ [Call StopPlaywright])%list, Exc e)
  | other => other
  end.

(** One round of the polling loop, and [n] rounds. *)
Definition round (b : browser) : trace := [Call (IsConnected b); Call (Sleep 1)].

Fixpoint rounds (n : nat) (b : browser) : trace :=
  match n with
  | O => []
  | S k => (round b ++ rounds k b)%list
  end.

(** The ways the claim under study lets the polling loop end: some poll
    answers that the browser is gone, or a poll or a sleep is interrupted. *)
Definition disconnect_or_interrupt (w : world) : Prop :=
  exists j,
    w_is_connected w j = Returns false \/
    exists e, is_KeyboardInterrupt e = true /\
              (w_is_connected w j = Raises e \/ w_sleep w j = Raises e).

(** Every event of the trace of a computation has property [P]. *)
Definition always (P : event -> Prop) {A} (m : M A) : Prop := Forall P (fst m).

(** Properties of single events. *)
Definition evaluates_on (pg : page) (ev : event) : Prop :=
  match ev with Call (Evaluate p _) => p = pg | _ => True end.


Definition not_close (ev : event) : Prop :=
  match ev with Call (Close _) => False | _ => True end.

Definition not_poll (ev : event) : Prop :=
  match ev with Call (IsConnected _) => False | _ => True end.

Definition not_stdout (ev : event) : Prop :=
  match ev with Stdout _ => False | _ => True end.

Definition not_evaluate (ev : event) : Prop :=
  match ev with Call (Evaluate _ _) => False | _ => True end.

(** What phase 2 and phase 3 can put on a trace. *)
Definition scan_event (ev : event) : Prop :=
  match ev with
  | Call (Evaluate _ _) | Call FlushStdout | Stderr _ | Stdout _ => True
  | _ => False
  end.

Definition finalizer_event (ev : event) : Prop :=
  match ev with
  | Call (IsConnected _) | Call (Sleep _) | Call (Close _) | Stderr _ => True
  | _ => False
  end.

(** The scan of a run is made on page [pg]: the script is injected there
    and no [evaluate] call goes anywhere else. *)
Definition scans_page (tr : trace) (pg : page) (js : string) : Prop :=
  In (Call (Evaluate pg js)) tr /\ Forall (evaluates_on pg) tr.

(** A world in which every call succeeds: no browser answers on the
    debugging port, the launched browser is gone at the third poll. *)
Definition sample_page : page := MkPage 1 "about:blank".

Definition sample_elements : Json.value :=
  Json.VList [Json.VDict [([116; 97; 103]%N, Json.VStr [100; 105; 118]%N);
                          ([120]%N, Json.VInt 12)]].

Definition connection_refused : exc :=
  MkExc ExceptionClass "connect ECONNREFUSED".

Definition target_closed : exc := MkExc ExceptionClass "Target closed".

Definition no_such_file : exc :=
  MkExc ExceptionClass "[Errno 2] No such file or directory".

Definition fresh_world : world :=
  {| w_stdin_read := None;
     w_read_file := fun _ => Returns "scanner";
     w_start_playwright := Returns tt;
     w_connect_over_cdp := fun _ => Raises connection_refused;
     w_contexts := [];
     w_new_page := fun _ => Returns sample_page;
     w_launch := fun _ _ => Returns tt;
     w_goto := fun _ _ => Returns tt;
     w_wait_for_load_state := fun _ => Returns tt;
     w_evaluate := fun _ _ _ => Returns sample_elements;
     w_print := fun _ => MkWrite 0 (Returns tt);
     w_flush := MkWrite 0 (Returns tt);
     w_is_connected := fun i => Returns (i <? 2)%nat;
     w_sleep := fun _ => Returns tt;
     w_close := fun _ => Returns tt |}.



(** The same, but the first connectivity check raises. *)
Definition monitor_error_world : world :=
  {| w_stdin_read := None;
     w_read_file := fun _ => Returns "scanner";
     w_start_playwright := Returns tt;
     w_connect_over_cdp := fun _ => Raises connection_refused;
     w_contexts := [];
     w_new_page := fun _ => Returns sample_page;
     w_launch := fun _ _ => Returns tt;
     w_goto := fun _ _ => Returns tt;
     w_wait_for_load_state := fun _ => Returns tt;
     w_evaluate := fun _ _ _ => Returns sample_elements;
     w_print := fun _ => MkWrite 0 (Returns tt);
     w_flush := MkWrite 0 (Returns tt);
     w_is_connected := fun _ => Raises target_closed;
     w_sleep := fun _ => Returns tt;
     w_close := fun _ => Returns tt |}.

(** A browser answers on the debugging port; [contexts] says what it has
    open. *)
Definition attached_world (contexts : list (list page)) : world :=
  {| w_stdin_read := None;
     w_read_file := fun _ => Returns "scanner";
     w_start_playwright := Returns tt;
     w_connect_over_cdp := fun _ => Returns tt;
     w_contexts := contexts;
     w_new_page := fun _ => Returns (MkPage 7 "about:blank");
     w_launch := fun _ _ => Returns tt;
     w_goto := fun _ _ => Returns tt;
     w_wait_for_load_state := fun _ => Returns tt;
     w_evaluate := fun _ _ _ => Returns sample_elements;
     w_print := fun _ => MkWrite 0 (Returns tt);
     w_flush := MkWrite 0 (Returns tt);
     w_is_connected := fun _ => Returns true;
     w_sleep := fun _ => Returns tt;
     w_close := fun _ => Returns tt |}.

(** The scanner script cannot be read. *)
Definition missing_script_world : world :=
  {| w_stdin_read := None;
     w_read_file := fun _ => Raises no_such_file;
     w_start_playwright := Returns tt;
     w_connect_over_cdp := fun _ => Returns tt;
     w_contexts := [];
     w_new_page := fun _ => Returns sample_page;
     w_launch := fun _ _ => Returns tt;
     w_goto := fun _ _ => Returns tt;
     w_wait_for_load_state := fun _ => Returns tt;
     w_evaluate := fun _ _ _ => Returns sample_elements;
     w_print := fun _ => MkWrite 0 (Returns tt);
     w_flush := MkWrite 0 (Returns tt);
     w_is_connected := fun _ => Returns false;
     w_sleep := fun _ => Returns tt;
     w_close := fun _ => Returns tt |}.

(** A world that answers [page.evaluate] in its own way. *)
Definition with_evaluate (w : world)
  (answer : nat -> page -> string -> outcome Json.value) : world :=
  {| w_stdin_read := w_stdin_read w;
     w_read_file := w_read_file w;
     w_start_playwright := w_start_playwright w;
     w_connect_over_cdp := w_connect_over_cdp w;
     w_contexts := w_contexts w;
     w_new_page := w_new_page w;
     w_launch := w_launch w;
     w_goto := w_goto w;
     w_wait_for_load_state := w_wait_for_load_state w;
     w_evaluate := answer;
     w_print := w_print w;
     w_flush := w_flush w;
     w_is_connected := w_is_connected w;
     w_sleep := w_sleep w;
     w_close := w_close w |}.

(** A world that answers navigation in its own way. *)
Definition with_navigation (w : world)
  (goto : outcome unit) (wait : outcome unit) : world :=
  {| w_stdin_read := w_stdin_read w;
     w_read_file := w_read_file w;
     w_start_playwright := w_start_playwright w;
     w_connect_over_cdp := w_connect_over_cdp w;
     w_contexts := w_contexts w;
     w_new_page := w_new_page w;
     w_launch := w_launch w;
     w_goto := fun _ _ => goto;
     w_wait_for_load_state := fun _ => wait;
     w_evaluate := w_evaluate w;
     w_print := w_print w;
     w_flush := w_flush w;
     w_is_connected := w_is_connected w;
     w_sleep := w_sleep w;
     w_close := w_close w |}.



Definition timeout_error : exc :=
  MkExc ExceptionClass "Timeout 5000ms exceeded.".

Definition name_not_resolved : exc :=
  MkExc ExceptionClass "net::ERR_NAME_NOT_RESOLVED".



(** The entry point returns [nan_elements], defined with the JSON syntax
    below. *)
Definition returns_value (v : Json.value) (_ : nat) (_ : page) (_ : string)
  : outcome Json.value := Returns v.

(* ===================================================================== *)
(** ** What counts as JSON text *)
(* ===================================================================== *)

(** A recogniser for the grammar of RFC 8259, to judge what the script
    prints.  Every function returns what is left of the text after the
    construct it reads.  Characters are tested by code. *)
Module JsonSyntax.

Definition code (c : ascii) : N := N_of_ascii c.

Definition is_ws (c : ascii) : bool :=
  let n := code c in
  orb (orb (n =? 32)%N (n =? 9)%N) (orb (n =? 10)%N (n =? 13)%N).

Definition is_digit (c : ascii) : bool :=
  let n := code c in andb (48 <=? n)%N (n <=? 57)%N.

Definition is_hex (c : ascii) : bool :=
  let n := code c in
  orb (is_digit c)
      (orb (andb (97 <=? n)%N (n <=? 102)%N) (andb (65 <=? n)%N (n <=? 70)%N)).

Fixpoint skip_ws (s : string) : string :=
  match s with
  | String c r => if is_ws c then skip_ws r else s
  | EmptyString => s
  end.

Fixpoint skip_digits (s : string) : string :=
  match s with
  | String c r => if is_digit c then skip_digits r else s
  | EmptyString => s
  end.

(** One digit or more. *)
Definition digits1 (s : string) : option string :=
  match s with
  | String c r => if is_digit c then Some (skip_digits r) else None
  | EmptyString => None
  end.

(** [int = zero / ( digit1-9 *DIGIT )] *)
Definition parse_int (s : string) : option string :=
  match s with
  | String c r =>
      if (code c =? 48)%N then Some r
      else if is_digit c then Some (skip_digits r)
      else None
  | EmptyString => None
  end.

(** [frac = decimal-point 1*DIGIT], optional. *)
Definition parse_frac (s : string) : option string :=
  match s with
  | String c r => if (code c =? 46)%N then digits1 r else Some s
  | EmptyString => Some s
  end.

(** [exp = e [ minus / plus ] 1*DIGIT], optional. *)
Definition parse_exp (s : string) : option string :=
  match s with
  | String c r =>
      if orb (code c =? 101)%N (code c =? 69)%N then
        match r with
        | String c2 r2 =>
            if orb (code c2 =? 43)%N (code c2 =? 45)%N then digits1 r2
            else digits1 r
        | EmptyString => None
        end
      else Some s
  | EmptyString => Some s
  end.

(** What may follow the integer part of a number. *)
Definition after_int (r : option string) : option string :=
  match r with
  | Some r1 =>
      match parse_frac r1 with
      | Some r2 => parse_exp r2
      | None => None
      end
  | None => None
  end.

(** [number = [ minus ] int [ frac ] [ exp ]] *)
Definition parse_number (s : string) : option string :=
  let unsigned :=
    match s with
    | String c r => if (code c =? 45)%N then r else s
    | EmptyString => s
    end in
  after_int (parse_int unsigned).

(** The rest of a string after its opening quote: unescaped characters
    from code 32 on other than the quote and the backslash, the two-character
    escapes, and [\u] with four hexadecimal digits. *)
Fixpoint parse_chars (s : string) : option string :=
  match s with
  | EmptyString => None
  | String c r =>
      if (code c =? 34)%N then Some r
      else if (code c =? 92)%N then
        match r with
        | String e r1 =>
            let n := code e in
            if orb (orb (orb (n =? 34)%N (n =? 92)%N) (orb (n =? 47)%N (n =? 98)%N))
                   (orb (orb (n =? 102)%N (n =? 110)%N) (orb (n =? 114)%N (n =? 116)%N))
            then parse_chars r1
            else if (n =? 117)%N then
              match r1 with
              | String h1 (String h2 (String h3 (String h4 r2))) =>
                  if andb (andb (is_hex h1) (is_hex h2)) (andb (is_hex h3) (is_hex h4))
                  then parse_chars r2
                  else None
              | _ => None
              end
            else None
        | EmptyString => None
        end
      else if (code c <? 32)%N then None
      else parse_chars r
  end.

(** A fixed word at the head of the text. *)
Fixpoint expect (word s : string) : option string :=
  match word with
  | EmptyString => Some s
  | String c w =>
      match s with
      | String d r => if Ascii.eqb c d then expect w r else None
      | EmptyString => None
      end
  end.

(** Values, the elements of an array after its opening bracket and the
    members of an object after its opening brace.  Each call uses up one
    unit of [fuel]; the length of the text is always enough. *)
Fixpoint parse_value (fuel : nat) (s : string) {struct fuel} : option string :=
  match fuel with
  | O => None
  | S fuel' =>
      match s with
      | EmptyString => None
      | String c r =>
          let n := code c in
          if (n =? 91)%N then
            match skip_ws r with
            | String c1 r1 =>
                if (code c1 =? 93)%N then Some r1
                else parse_elements fuel' (String c1 r1)
            | EmptyString => None
            end
          else if (n =? 123)%N then
            match skip_ws r with
            | String c1 r1 =>
                if (code c1 =? 125)%N then Some r1
                else parse_members fuel' (String c1 r1)
            | EmptyString => None
            end
          else if (n =? 34)%N then parse_chars r
          else if (n =? 116)%N then expect "true" s
          else if (n =? 102)%N then expect "false" s
          else if (n =? 110)%N then expect "null" s
          else parse_number s
      end
  end

with parse_elements (fuel : nat) (s : string) {struct fuel} : option string :=
  match fuel with
  | O => None
  | S fuel' =>
      match parse_value fuel' s with
      | Some r =>
          match skip_ws r with
          | String c r1 =>
              if (code c =? 44)%N then parse_elements fuel' (skip_ws r1)
              else if (code c =? 93)%N then Some r1
              else None
          | EmptyString => None
          end
      | None => None
      end
  end

with parse_members (fuel : nat) (s : string) {struct fuel} : option string :=
  match fuel with
  | O => None
  | S fuel' =>
      match s with
      | String q r =>
          if (code q =? 34)%N then
            match parse_chars r with
            | Some r1 =>
                match skip_ws r1 with
                | String colon r2 =>
                    if (code colon =? 58)%N then
                      match parse_value fuel' (skip_ws r2) with
                      | Some r3 =>
                          match skip_ws r3 with
                          | String c r4 =>
                              if (code c =? 44)%N then parse_members fuel' (skip_ws r4)
                              else if (code c =? 125)%N then Some r4
                              else None
                          | EmptyString => None
                          end
                      | None => None
                      end
                    else None
                | EmptyString => None
                end
            | None => None
            end
          else None
      | EmptyString => None
      end
  end.

(** Only digits. *)
Fixpoint all_digits (s : string) : bool :=
  match s with
  | EmptyString => true
  | String c r => andb (is_digit c) (all_digits r)
  end.

(** Text before which a number ends: it does not go on with a digit, a
    decimal point or an exponent mark. *)
Definition stops (s : string) : bool :=
  match s with
  | EmptyString => true
  | String c _ =>
      negb (orb (is_digit c)
                (orb (code c =? 46)%N (orb (code c =? 101)%N (code c =? 69)%N)))
  end.

(** A character a value can start with: no white space, no closing
    bracket. *)
Definition starts_value (c : ascii) : Prop :=
  is_ws c = false /\ (code c =? 93)%N = false.

(** A character a number can start with. *)
Definition starts_number (c : ascii) : Prop :=
  is_digit c = true \/ (code c =? 45)%N = true.

(** A JSON text: white space, one value, white space. *)
Definition is_json (s : string) : bool :=
  match parse_value (String.length s) (skip_ws s) with
  | Some r => match skip_ws r with EmptyString => true | _ => false end
  | None => false
  end.

(** The text is the array form: it opens with a bracket. *)
Definition is_array_text (s : string) : bool :=
  match skip_ws s with
  | String c _ => (code c =? 91)%N
  | EmptyString => false
  end.

End JsonSyntax.

(** *** Which values print as JSON *)

(** No NaN and no infinity anywhere in the value. *)
Fixpoint finite (v : Json.value) : bool :=
  match v with
  | Json.VFloat Json.FNan | Json.VFloat Json.FInf | Json.VFloat Json.FNegInf => false
  | Json.VList l => forallb finite l
  | Json.VDict m => forallb (fun kv => finite (snd kv)) m
  | _ => true
  end.

(** The number of nodes of a value. *)
Fixpoint size (v : Json.value) : nat :=
  match v with
  | Json.VList l => S (list_sum (map (fun x => S (size x)) l))
  | Json.VDict m => S (list_sum (map (fun kv => S (size (snd kv))) m))
  | _ => 1
  end.

(** What the recogniser is to do with the text of a value. *)
Definition reads_back (v : Json.value) : Prop :=
  Json.serializable v = true -> finite v = true ->
  forall lvl rest fuel,
    JsonSyntax.stops rest = true -> size v <= fuel ->
    JsonSyntax.parse_value fuel (Json.encode lvl v ++ rest) = Some rest.

(** The tail of a non-empty array and of a non-empty object, as the
    encoder lays them out. *)
Fixpoint encode_more_items (lvl : nat) (l : list Json.value) : string :=
  match l with
  | [] => Json.newline_indent lvl ++ "]"
  | y :: ys =>
      "," ++ Json.newline_indent (S lvl) ++ Json.encode (S lvl) y ++
      encode_more_items lvl ys
  end.

Fixpoint encode_more_members (lvl : nat) (l : list (Json.pystr * Json.value))
  : string :=
  match l with
  | [] => Json.newline_indent lvl ++ "}"
  | (k, y) :: ys =>
      "," ++ Json.newline_indent (S lvl) ++ Json.encode_str k ++ ": " ++
      Json.encode (S lvl) y ++ encode_more_members lvl ys
  end.

(** A scan result with a NaN among its numbers. *)
Definition nan_elements : Json.value :=
  Json.VList [Json.VDict [([120]%N, Json.VFloat Json.FNan)]].

(* ===================================================================== *)
(** ** Further readings of a trace *)
(* ===================================================================== *)

Definition is_navigation (c : call) : bool :=
  match c with Goto _ _ | WaitForLoadState _ _ _ => true | _ => false end.

Definition is_launch (c : call) : bool :=
  match c with Launch _ _ => true | _ => false end.

Definition not_navigation (ev : event) : Prop :=
  match ev with
  | Call (Goto _ _) | Call (WaitForLoadState _ _ _) => False
  | _ => True
  end.

Definition not_launch (ev : event) : Prop :=
  match ev with Call (Launch _ _) => False | _ => True end.

Definition not_os_exit (ev : event) : Prop :=
  match ev with Call (OsExit _) => False | _ => True end.

(** The one port of the script: what is probed is what a launch exposes,
    and the launch is headless exactly when the argument reads as true. *)
Definition uses_debug_port (headless_mode : string) (ev : event) : Prop :=
  match ev with
  | Call (ConnectOverCdp ep) => ep = "http://localhost:9222"
  | Call (Launch headless args) =>
      headless = String.eqb (lower headless_mode) "true" /\
      args = ["--remote-debugging-port=9222"]
  | _ => True
  end.

(** [line.startswith(head)] *)
Fixpoint starts_with (head line : string) : bool :=
  match head with
  | EmptyString => true
  | String a head' =>
      match line with
      | String b line' => andb (Ascii.eqb a b) (starts_with head' line')
      | EmptyString => false
      end
  end.

(** The two shapes of a diagnostic line. *)
Definition diagnostic_line (ev : event) : Prop :=
  match ev with
  | Stderr line =>
      starts_with "[SCANNER] " line = true \/
      starts_with "CRITICAL ERROR: " line = true
  | _ => True
  end.

(** A result that is not the process ended by [os._exit]. *)
Definition soft {A} (r : result A) : Prop :=
  match r with HardExit _ => False | _ => True end.

Definition interrupt : exc := MkExc KeyboardInterruptClass "".


(** A world that answers the polls and the sleeps in its own way. *)
Definition with_polling (w : world)
  (connected : nat -> outcome bool) (sleep : nat -> outcome unit) : world :=
  {| w_stdin_read := w_stdin_read w;
     w_read_file := w_read_file w;
     w_start_playwright := w_start_playwright w;
     w_connect_over_cdp := w_connect_over_cdp w;
     w_contexts := w_contexts w;
     w_new_page := w_new_page w;
     w_launch := w_launch w;
     w_goto := w_goto w;
     w_wait_for_load_state := w_wait_for_load_state w;
     w_evaluate := w_evaluate w;
     w_print := w_print w;
     w_flush := w_flush w;
     w_is_connected := connected;
     w_sleep := sleep;
     w_close := w_close w |}.


(** A browser answers on the debugging port but opening a page in it
    fails; a launched browser opens one. *)
Definition attach_then_fail_world : world :=
  {| w_stdin_read := None;
     w_read_file := fun _ => Returns "scanner";
     w_start_playwright := Returns tt;
     w_connect_over_cdp := fun _ => Returns tt;
     w_contexts := [];
     w_new_page := fun b =>
       match b with
       | AttachedBrowser => Raises target_closed
       | LaunchedBrowser => Returns sample_page
       end;
     w_launch := fun _ _ => Returns tt;
     w_goto := fun _ _ => Returns tt;
     w_wait_for_load_state := fun _ => Returns tt;
     w_evaluate := fun _ _ _ => Returns sample_elements;
     w_print := fun _ => MkWrite 0 (Returns tt);
     w_flush := MkWrite 0 (Returns tt);
     w_is_connected := fun _ => Returns false;
     w_sleep := fun _ => Returns tt;
     w_close := fun _ => Returns tt |}.

(** A world whose standard input answers in its own way. *)
Definition with_stdin (w : world) (read : option (outcome string)) : world :=
  {| w_stdin_read := read;
     w_read_file := w_read_file w;
     w_start_playwright := w_start_playwright w;
     w_connect_over_cdp := w_connect_over_cdp w;
     w_contexts := w_contexts w;
     w_new_page := w_new_page w;
     w_launch := w_launch w;
     w_goto := w_goto w;
     w_wait_for_load_state := w_wait_for_load_state w;
     w_evaluate := w_evaluate w;
     w_print := w_print w;
     w_flush := w_flush w;
     w_is_connected := w_is_connected w;
     w_sleep := w_sleep w;
     w_close := w_close w |}.

(** The parent is gone: standard input is at its end. *)
Definition end_of_stream : option (outcome string) := Some (Returns EmptyString).

(** [a] is a leading part of [b]. *)
Definition leading_part (a b : string) : Prop := exists rest, b = a ++ rest.

(** The events of the watchdog thread are calls. *)
Definition call_event (ev : event) : Prop :=
  match ev with Call _ => True | _ => False end.

(** [a] is a leading part of the list [b]. *)
Definition leading_lines (a b : list string) : Prop := exists rest, b = (a ++ rest)%list.
Unset Implicit Arguments.

(* ===================================================================== *)
(** ** Facts about strings *)
(* ===================================================================== *)

Lemma append_assoc (a b c : string) : (a ++ b) ++ c = a ++ (b ++ c).
Proof. induction a as [ | x a IH]; cbn; [ | rewrite IH]; reflexivity. Qed.

Lemma append_empty_r (a : string) : a ++ EmptyString = a.
Proof. induction a as [ | x a IH]; cbn; [ | rewrite IH]; reflexivity. Qed.

Lemma length_append (a b : string) :
  String.length (a ++ b) = String.length a + String.length b.
Proof. induction a as [ | x a IH]; cbn; [ | rewrite IH]; reflexivity. Qed.

Lemma take_drop n (s : string) : take n s ++ drop n s = s.
Proof.
  revert s. induction n as [ | n IH]; intros [ | c s]; cbn; try reflexivity.
  rewrite IH. reflexivity.
Qed.

Lemma leading_part_refl (s : string) : leading_part s s.
Proof. exists EmptyString. rewrite append_empty_r. reflexivity. Qed.

Lemma leading_part_empty (s : string) : leading_part EmptyString s.
Proof. exists s. reflexivity. Qed.

Lemma leading_part_take n (s : string) : leading_part (take n s) s.
Proof. exists (drop n s). rewrite take_drop. reflexivity. Qed.

Lemma leading_part_app (a b c : string) :
  leading_part b c -> leading_part (a ++ b) (a ++ c).
Proof. intros [r ->]. exists r. rewrite append_assoc. reflexivity. Qed.

(* ===================================================================== *)
(** ** Facts about the monad *)
(* ===================================================================== *)

Lemma bind_ret_l {A B} (a : A) (f : A -> M B) : bind (ret a) f = f a.
Proof. unfold bind, ret. destruct (f a). reflexivity. Qed.

Lemma bind_val {A B} (m : M A) (f : A -> M B) t a :
  m = (t, Val a) -> bind m f = ((t ++ fst (f a))%list, snd (f a)).
Proof. intros ->. unfold bind. destruct (f a). reflexivity. Qed.

Lemma bind_exc {A B} (m : M A) (f : A -> M B) t e :
  m = (t, Exc e) -> bind m f = (t, Exc e).
Proof. intros ->. reflexivity. Qed.

Lemma bind_pending {A B} (m : M A) (f : A -> M B) t :
  m = (t, Pending) -> bind m f = (t, Pending).
Proof. intros ->. reflexivity. Qed.

Lemma bind_log {B} line (k : M B) :
  bind (log line) (fun _ => k) = (Stderr line :: fst k, snd k).
Proof. unfold bind, log. destruct k. reflexivity. Qed.

Lemma bind_request_returns {A B} c (o : outcome A) a (f : A -> M B) :
  o = Returns a -> bind (request c o) f = (Call c :: fst (f a), snd (f a)).
Proof. intros ->. unfold bind, request. destruct (f a). reflexivity. Qed.

Lemma bind_request_raises {A B} c (o : outcome A) e (f : A -> M B) :
  o = Raises e -> bind (request c o) f = ([Call c], Exc e).
Proof. intros ->. reflexivity. Qed.

Lemma surjective_M {A} (m : M A) : m = (fst m, snd m).
Proof. destruct m. reflexivity. Qed.

Lemma bind_hard_exit {A B} (m : M A) (f : A -> M B) t c :
  m = (t, HardExit c) -> bind m f = (t, HardExit c).
Proof. intros ->. reflexivity. Qed.

(** A sequence ends with a value only when both halves do. *)
Lemma bind_inv_val {A B} (m : M A) (f : A -> M B) t b :
  bind m f = (t, Val b) ->
  exists t1 a t2, m = (t1, Val a) /\ f a = (t2, Val b) /\ t = (t1 ++ t2)%list.
Proof.
  destruct m as [t1 [a | e | c | ]]; cbn; try discriminate.
  destruct (f a) as [t2 r] eqn:Hf. intros H. inversion H; subst.
  exists t1, a, t2. auto.
Qed.

Lemma try_except_val {A} (body : M A) clauses t a :
  body = (t, Val a) -> try_except body clauses = (t, Val a).
Proof. intros ->. reflexivity. Qed.

Lemma try_except_pending {A} (body : M A) clauses t :
  body = (t, Pending) -> try_except body clauses = (t, Pending).
Proof. intros ->. reflexivity. Qed.

Lemma try_except_handled {A} (body : M A) clauses t e h :
  body = (t, Exc e) -> select_clause clauses e = Some h ->
  try_except body clauses = ((t ++ fst h)%list, snd h).
Proof. intros -> Hsel. cbn. rewrite Hsel. destruct h. reflexivity. Qed.

Lemma try_except_unhandled {A} (body : M A) clauses t e :
  body = (t, Exc e) -> select_clause clauses e = None ->
  try_except body clauses = (t, Exc e).
Proof. intros -> Hsel. cbn. rewrite Hsel. reflexivity. Qed.

(** A guarded block ends with a value when its body does, or when the
    clause that took the exception does. *)
Lemma try_except_inv_val {A} (body : M A) clauses t a :
  try_except body clauses = (t, Val a) ->
  body = (t, Val a) \/
  exists t1 e t2, body = (t1, Exc e) /\
                  select_clause clauses e = Some (t2, Val a) /\
                  t = (t1 ++ t2)%list.
Proof.
  destruct body as [t1 [a' | e | c | ]]; cbn; try discriminate.
  - intros H. left. exact H.
  - destruct (select_clause clauses e) as [[t2 r] | ] eqn:Hsel; try discriminate.
    intros H. inversion H; subst. right. exists t1, e, t2. auto.
Qed.

(** The trace of a sequence starts with the trace of its first half. *)
Lemma bind_trace {A B} (m : M A) (f : A -> M B) :
  exists t', fst (bind m f) = (fst m ++ t')%list.
Proof.
  destruct m as [t [a | e | c | ]]; cbn;
    try (exists []; rewrite app_nil_r; reflexivity).
  destruct (f a) as [t' r]. exists t'. reflexivity.
Qed.

(** The trace of a guarded block starts with the trace of its body. *)
Lemma try_except_trace {A} (body : M A) clauses :
  exists t', fst (try_except body clauses) = (fst body ++ t')%list.
Proof.
  destruct body as [t [a | e | c | ]]; cbn;
    try (exists []; rewrite app_nil_r; reflexivity).
  destruct (select_clause clauses e) as [[t2 r] | ].
  - exists t2. reflexivity.
  - exists []. cbn. rewrite app_nil_r. reflexivity.
Qed.

Lemma request_inv_val {A} c (o : outcome A) t a :
  request c o = (t, Val a) -> o = Returns a /\ t = [Call c].
Proof. destruct o; cbn; intros H; inversion H; auto. Qed.

Lemma log_inv line t r : log line = (t, r) -> t = [Stderr line] /\ r = Val tt.
Proof. unfold log. intros H. inversion H; auto. Qed.

Lemma ret_inv {A} (a : A) t r : ret a = (t, r) -> t = [] /\ r = Val a.
Proof. unfold ret. intros H. inversion H; auto. Qed.

(** Takes apart the hypotheses that say a sequence of steps ended with a
    value. *)
Ltac invert_run :=
  repeat match goal with
  | H : bind _ _ = (_, Val _) |- _ =>
      let t1 := fresh "t" in let a := fresh "a" in let t2 := fresh "t" in
      let H1 := fresh "H" in let E := fresh "E" in
      apply bind_inv_val in H; destruct H as (t1 & a & t2 & H1 & H & E);
      try subst
  | H : request _ _ = (_, Val _) |- _ =>
      let E := fresh "E" in
      apply request_inv_val in H; destruct H as [H E]; try subst
  | H : log _ = (_, _) |- _ =>
      let E := fresh "E" in
      apply log_inv in H; destruct H as [H E]; try subst
  | H : ret _ = (_, _) |- _ =>
      let E := fresh "E" in
      apply ret_inv in H; destruct H as [H E]; try subst
  | H : Val _ = Val _ |- _ => inversion H; clear H; try subst
  | x : unit |- _ => destruct x
  end.

(* ===================================================================== *)
(** ** Properties every event of a trace keeps *)
(* ===================================================================== *)

Lemma Forall_app_intro {A} (P : A -> Prop) (l1 l2 : list A) :
  Forall P l1 -> Forall P l2 -> Forall P (l1 ++ l2)%list.
Proof. intros H1 H2. apply Forall_app. split; assumption. Qed.

Section Always.

Variable P : event -> Prop.

Lemma always_ret {A} (a : A) : always P (ret a).
Proof. constructor. Qed.

Lemma always_raise {A} e : always P (@raise A e).
Proof. constructor. Qed.

Lemma always_lift {A} (o : outcome A) : always P (lift o).
Proof. constructor. Qed.

Lemma always_log line : P (Stderr line) -> always P (log line).
Proof. intros H. repeat constructor. exact H. Qed.

Lemma always_request {A} c (o : outcome A) : P (Call c) -> always P (request c o).
Proof. intros H. repeat constructor. exact H. Qed.

Lemma always_print text a :
  (forall chunk, P (Stdout chunk)) -> always P (print_stdout text a).
Proof. intros H. repeat constructor. apply H. Qed.

Lemma always_flush held a :
  P (Call FlushStdout) -> (forall chunk, P (Stdout chunk)) ->
  always P (flush_stdout held a).
Proof.
  intros H1 H2. unfold flush_stdout, always.
  destruct (write_end a); repeat constructor; auto.
Qed.

Lemma always_bind {A B} (m : M A) (f : A -> M B) :
  always P m -> (forall a, snd m = Val a -> always P (f a)) -> always P (bind m f).
Proof.
  unfold always. destruct m as [t [a | e | c | ]]; cbn; intros Hm Hf; auto.
  specialize (Hf a eq_refl). destruct (f a) as [t' r]. cbn in *.
  apply Forall_app; auto.
Qed.

Lemma always_try_except {A} (body : M A) clauses :
  always P body ->
  (forall e h, snd body = Exc e -> select_clause clauses e = Some h -> always P h) ->
  always P (try_except body clauses).
Proof.
  unfold always. destruct body as [t [a | e | c | ]]; cbn; intros Hb Hh; auto.
  destruct (select_clause clauses e) as [[t2 r] | ] eqn:Hsel; auto.
  cbn. apply Forall_app; split; auto.
  exact (Hh e (t2, r) eq_refl Hsel).
Qed.

Lemma always_with_playwright {A} w (body : M A) :
  P (Call StartPlaywright) -> P (Call StopPlaywright) ->
  always P body -> always P (with_playwright w body).
Proof.
  intros H1 H2 Hb. unfold with_playwright.
  apply always_bind; [apply always_request; exact H1 | intros _ _].
  unfold always in *. destruct body as [t [a | e | c | ]]; cbn in *; auto;
    apply Forall_app; split; auto.
Qed.

End Always.

Lemma always_try_except_all {A} P (body : M A) clauses :
  always P body ->
  Forall (fun clause => forall e, always P (snd clause e)) clauses ->
  always P (try_except body clauses).
Proof.
  intros Hb Hc. apply always_try_except; auto.
  intros e h _. clear Hb. induction Hc as [ | [takes handler] rest Hh _ IH]; cbn.
  - discriminate.
  - destruct (takes e); auto. intros H. inversion H; subst. apply Hh.
Qed.

Lemma always_poll P w fuel b i :
  (forall b', P (Call (IsConnected b'))) -> (forall n, P (Call (Sleep n))) ->
  always P (poll w fuel b i).
Proof.
  intros H1 H2. revert i. induction fuel as [ | fuel IH]; intros i; cbn [poll].
  - constructor.
  - apply always_bind; [apply always_request; auto | intros [ | ] _].
    + apply always_bind; [apply always_request; auto | intros _ _; apply IH].
    + apply always_ret.
Qed.

Ltac always_clauses :=
  first
    [ apply Forall_nil
    | apply Forall_cons; [intros ?; cbn [snd] | always_clauses] ].

(** Walks through a piece of the script; [leaf] proves the property of
    each event met. *)
Ltac always_step leaf :=
  first
    [ apply always_ret
    | apply always_raise
    | apply always_lift
    | apply always_log; leaf
    | apply always_request; leaf
    | apply always_print; intros; leaf
    | apply always_flush; [leaf | intros; leaf]
    | apply always_poll; intros; leaf
    | apply always_bind; [ | intros ? _ ]
    | apply always_with_playwright; [leaf | leaf | ]
    | apply always_try_except_all; [ | always_clauses ]
    | match goal with
      | |- always _ (match ?x with _ => _ end) => destruct x
      end ].

Ltac always_walk leaf := repeat always_step leaf.

(* ===================================================================== *)
(** ** Reading a trace *)
(* ===================================================================== *)


Lemma calls_of_app (t1 t2 : trace) : calls_of (t1 ++ t2)%list = (calls_of t1 ++ calls_of t2)%list.
Proof.
  induction t1 as [ | [c | l | x] t1 IH]; cbn; auto. rewrite IH. reflexivity.
Qed.

Lemma stdout_of_app (t1 t2 : trace) : stdout_of (t1 ++ t2)%list = stdout_of t1 ++ stdout_of t2.
Proof.
  induction t1 as [ | [c | l | x] t1 IH]; cbn; auto.
  rewrite IH. rewrite !append_assoc. reflexivity.
Qed.

Lemma stderr_of_app (t1 t2 : trace) : stderr_of (t1 ++ t2)%list = (stderr_of t1 ++ stderr_of t2)%list.
Proof.
  induction t1 as [ | [c | l | x] t1 IH]; cbn; auto. rewrite IH. reflexivity.
Qed.

Lemma not_close_calls t :
  Forall not_close t -> existsb is_close (calls_of t) = false.
Proof.
  induction 1 as [ | [[] | l | x] t Hx _ IH]; cbn in *; auto. contradiction.
Qed.

Lemma not_poll_calls t :
  Forall not_poll t -> existsb is_poll (calls_of t) = false.
Proof.
  induction 1 as [ | [[] | l | x] t Hx _ IH]; cbn in *; auto. contradiction.
Qed.

Lemma not_evaluate_calls t :
  Forall not_evaluate t -> existsb is_evaluate (calls_of t) = false.
Proof.
  induction 1 as [ | [[] | l | x] t Hx _ IH]; cbn in *; auto. contradiction.
Qed.

Lemma not_evaluate_filter t :
  Forall not_evaluate t -> filter is_evaluate (calls_of t) = [].
Proof.
  induction 1 as [ | [[] | l | x] t Hx _ IH]; cbn in *; auto. contradiction.
Qed.

Lemma not_stdout_empty t : Forall not_stdout t -> stdout_of t = EmptyString.
Proof.
  induction 1 as [ | [c | l | x] t Hx _ IH]; cbn in *; auto. contradiction.
Qed.

(* ===================================================================== *)
(** ** Facts about the phases *)
(* ===================================================================== *)

Section PhaseFacts.

Variable w : world.

(** *** Phase 1 *)

Lemma attach_existing_val t s :
  attach_existing w = (t, Val s) ->
  s_browser s = AttachedBrowser /\ s_is_existing s = true /\
  w_connect_over_cdp w endpoint = Returns tt.
Proof.
  unfold attach_existing. fold endpoint.
  destruct (w_connect_over_cdp w endpoint) as [[] | e] eqn:Hc; cbn;
    [ | discriminate].
  destruct (w_contexts w) as [ | [ | pg pgs] ctxs]; cbn;
    try (destruct (w_new_page w AttachedBrowser) as [pg' | e']; cbn;
         [ | discriminate]);
    intros H; inversion H; subst; cbn; auto.
Qed.

Lemma launch_new_val url hm e t s :
  launch_new w url hm e = (t, Val s) ->
  s_browser s = LaunchedBrowser /\ s_is_existing s = false /\
  w_new_page w LaunchedBrowser = Returns (s_page s).
Proof.
  unfold launch_new. intros H. invert_run. cbn. auto.
Qed.

(** The origin flag of a resolved session says which handle it holds. *)
Lemma resolve_session_val url hm t s :
  resolve_session w url hm = (t, Val s) ->
  (s_browser s = AttachedBrowser /\ s_is_existing s = true) \/
  (s_browser s = LaunchedBrowser /\ s_is_existing s = false).
Proof.
  unfold resolve_session. intros H. invert_run.
  match goal with H : try_except _ _ = _ |- _ =>
    apply try_except_inv_val in H;
    destruct H as [H | (ta & e & tb & _ & H & _)]
  end.
  - apply attach_existing_val in H. left. tauto.
  - cbn in H. destruct (is_Exception e); [ | discriminate].
    inversion H as [H']. apply launch_new_val in H'. right. tauto.
Qed.

(** When the attempt to attach raises an [Exception], phase 1 is the
    launch. *)
Lemma resolve_session_refused url hm e :
  w_connect_over_cdp w endpoint = Raises e ->
  is_Exception e = true ->
  resolve_session w url hm =
    (Stderr ("[SCANNER] Attempting to connect to existing browser on port " ++
             str_of_Z DEBUG_PORT ++ "...")
     :: Call (ConnectOverCdp endpoint) :: fst (launch_new w url hm e),
     snd (launch_new w url hm e)).
Proof.
  intros Hconn Hexc. unfold resolve_session, attach_existing. fold endpoint.
  rewrite (bind_request_raises _ _ _ _ Hconn).
  rewrite (try_except_handled _ _ _ _ (launch_new w url hm e) eq_refl).
  - rewrite bind_log. reflexivity.
  - cbn. rewrite Hexc. reflexivity.
Qed.

(** The two outcomes of a successful attach. *)
Lemma attach_reuses_first_page url hm pg pgs ctxs :
  w_connect_over_cdp w endpoint = Returns tt ->
  w_contexts w = (pg :: pgs) :: ctxs ->
  resolve_session w url hm =
    ([Stderr ("[SCANNER] Attempting to connect to existing browser on port " ++
              str_of_Z DEBUG_PORT ++ "...");
      Call (ConnectOverCdp endpoint);
      Stderr "[SCANNER] SUCCESS - Connected to existing browser";
      Stderr ("[SCANNER] Using existing page: " ++ page_url pg)],
     Val (MkSession AttachedBrowser pg true)).
Proof.
  intros Hc Hctx. unfold resolve_session, attach_existing. fold endpoint.
  rewrite Hc, Hctx. reflexivity.
Qed.

Lemma attach_opens_page url hm pg :
  w_connect_over_cdp w endpoint = Returns tt ->
  w_contexts w = [] \/ (exists ctxs, w_contexts w = [] :: ctxs) ->
  w_new_page w AttachedBrowser = Returns pg ->
  resolve_session w url hm =
    ([Stderr ("[SCANNER] Attempting to connect to existing browser on port " ++
              str_of_Z DEBUG_PORT ++ "...");
      Call (ConnectOverCdp endpoint);
      Stderr "[SCANNER] SUCCESS - Connected to existing browser";
      Call (NewPage AttachedBrowser);
      Stderr "[SCANNER] Created new page in existing browser"],
     Val (MkSession AttachedBrowser pg true)).
Proof.
  intros Hc Hctx Hn. unfold resolve_session, attach_existing. fold endpoint.
  rewrite Hc. destruct Hctx as [Hctx | [ctxs Hctx]]; rewrite Hctx;
    cbn; rewrite Hn; reflexivity.
Qed.

Lemma resolve_session_not_close url hm : always not_close (resolve_session w url hm).
Proof.
  unfold resolve_session, attach_existing, launch_new.
  always_walk ltac:(exact I).
Qed.

Lemma resolve_session_not_poll url hm : always not_poll (resolve_session w url hm).
Proof.
  unfold resolve_session, attach_existing, launch_new.
  always_walk ltac:(exact I).
Qed.

Lemma resolve_session_not_stdout url hm : always not_stdout (resolve_session w url hm).
Proof.
  unfold resolve_session, attach_existing, launch_new.
  always_walk ltac:(exact I).
Qed.

Lemma resolve_session_not_evaluate url hm :
  always not_evaluate (resolve_session w url hm).
Proof.
  unfold resolve_session, attach_existing, launch_new.
  always_walk ltac:(exact I).
Qed.

(** *** Phase 2 *)

Lemma scan_not_close pg js : always not_close (scan w pg js).
Proof. unfold scan, print_json, py_len. always_walk ltac:(exact I). Qed.

Lemma scan_evaluates_on pg js : always (evaluates_on pg) (scan w pg js).
Proof. unfold scan, print_json, py_len. always_walk ltac:(exact I || reflexivity). Qed.

Lemma scan_injects pg js : In (Call (Evaluate pg js)) (fst (scan w pg js)).
Proof.
  unfold scan. rewrite bind_log. cbn [fst]. right.
  match goal with |- In _ (fst (try_except ?b ?c)) =>
    destruct (try_except_trace b c) as [t' Ht]; rewrite Ht end.
  apply in_or_app. left.
  destruct (w_evaluate w 0 pg js) as [v | e].
  - rewrite (bind_request_returns _ _ _ _ eq_refl). left. reflexivity.
  - rewrite (bind_request_raises _ _ _ _ eq_refl). left. reflexivity.
Qed.

Lemma scan_events pg js : always scan_event (scan w pg js).
Proof. unfold scan, print_json, py_len. always_walk ltac:(exact I). Qed.

Lemma scan_not_poll pg js : always not_poll (scan w pg js).
Proof. unfold scan, print_json, py_len. always_walk ltac:(exact I). Qed.

(** The inner block of phase 2: what it does when [json.dumps] raises and
    when it returns. *)
Lemma print_json_unserializable v e :
  Json.dumps v = Raises e -> print_json w v = ([], Val tt).
Proof.
  unfold print_json, Json.dumps. destruct (Json.first_opaque v); [ | discriminate].
  intros H. inversion H; subst. reflexivity.
Qed.

Lemma print_json_printed v text :
  Json.dumps v = Returns text ->
  print_json w v =
    let data := text ++ newline in
    let a := w_print w text in
    match write_end a with
    | Raises e =>
        ([Stdout (take (passed_on a) data)],
         if is_Exception e then Val tt else Exc e)
    | Returns _ =>
        let held := drop (passed_on a) data in
        match write_end (w_flush w) with
        | Returns _ =>
            ([Stdout (take (passed_on a) data); Call FlushStdout; Stdout held],
             Val tt)
        | Raises e =>
            ([Stdout (take (passed_on a) data); Call FlushStdout;
              Stdout (take (passed_on (w_flush w)) held)],
             if is_Exception e then Val tt else Exc e)
        end
    end.
Proof.
  intros Hd. unfold print_json. rewrite Hd. cbv zeta.
  unfold lift, print_stdout, flush_stdout, bind, try_except, select_clause.
  destruct (write_end (w_print w text)) as [[] | e].
  - destruct (write_end (w_flush w)) as [[] | e]; [reflexivity | ].
    destruct (is_Exception e); reflexivity.
  - destruct (is_Exception e); reflexivity.
Qed.

Lemma print_json_result v :
  snd (print_json w v) = Val tt \/
  exists e, snd (print_json w v) = Exc e /\ is_Exception e = false.
Proof.
  destruct (Json.dumps v) as [text | e] eqn:Hd.
  - rewrite (print_json_printed v text Hd). cbv zeta.
    destruct (write_end (w_print w text)) as [[] | e].
    + destruct (write_end (w_flush w)) as [[] | e]; [left; reflexivity | ].
      destruct (is_Exception e) eqn:He; cbn; [left; reflexivity | ].
      right. exists e. auto.
    + destruct (is_Exception e) eqn:He; cbn; [left; reflexivity | ].
      right. exists e. auto.
  - rewrite (print_json_unserializable v e Hd). left. reflexivity.
Qed.

Lemma print_json_stderr v : stderr_of (fst (print_json w v)) = [].
Proof.
  destruct (Json.dumps v) as [text | e] eqn:Hd.
  - rewrite (print_json_printed v text Hd). cbv zeta.
    destruct (write_end (w_print w text)) as [[] | e]; [ | reflexivity].
    destruct (write_end (w_flush w)); reflexivity.
  - rewrite (print_json_unserializable v e Hd). reflexivity.
Qed.

(** What the channel receives from the block is a leading part of the
    text and its line break. *)
Lemma print_json_leading v text :
  Json.dumps v = Returns text ->
  leading_part (stdout_of (fst (print_json w v))) (text ++ newline).
Proof.
  intros Hd. rewrite (print_json_printed v text Hd). cbv zeta.
  set (data := text ++ newline). set (n := passed_on (w_print w text)).
  destruct (write_end (w_print w text)) as [[] | e].
  - destruct (write_end (w_flush w)) as [[] | e]; cbn [fst stdout_of];
      rewrite append_empty_r.
    + rewrite take_drop. apply leading_part_refl.
    + exists (drop (passed_on (w_flush w)) (drop n data)).
      rewrite append_assoc, !take_drop. reflexivity.
  - cbn [fst stdout_of]. rewrite append_empty_r. apply leading_part_take.
Qed.

(** All of it once the print and the flush have returned. *)
Lemma print_json_whole v text :
  Json.dumps v = Returns text ->
  write_end (w_print w text) = Returns tt ->
  write_end (w_flush w) = Returns tt ->
  stdout_of (fst (print_json w v)) = text ++ newline /\
  snd (print_json w v) = Val tt.
Proof.
  intros Hd Hp Hf. rewrite (print_json_printed v text Hd). cbv zeta.
  rewrite Hp, Hf. cbn [fst snd stdout_of]. rewrite append_empty_r.
  rewrite take_drop. auto.
Qed.

(** The scan phase ends with a value unless something that is not an
    [Exception] was raised. *)
Lemma scan_result pg js :
  snd (scan w pg js) = Val tt \/
  exists e, snd (scan w pg js) = Exc e /\ is_Exception e = false.
Proof.
  unfold scan. rewrite bind_log. cbn [snd].
  match goal with |- context [try_except ?b ?c] =>
    destruct b as [t [[] | e | c' | ]] eqn:Hb end.
  - left. reflexivity.
  - cbn. destruct (is_Exception e) eqn:He; cbn; [left; reflexivity | ].
    right. exists e. auto.
  - exfalso. revert Hb. unfold py_len.
    destruct (w_evaluate w 0 pg js); cbn; try discriminate.
    destruct (w_evaluate w 1 pg scan_entry_point) as [v | ]; cbn; try discriminate.
    destruct (Json.len v); cbn; try discriminate.
    destruct (print_json_result v) as [H | (e & H & _)];
      destruct (print_json w v) as [tp rp]; cbn in H; subst rp; discriminate.
  - exfalso. revert Hb. unfold py_len.
    destruct (w_evaluate w 0 pg js); cbn; try discriminate.
    destruct (w_evaluate w 1 pg scan_entry_point) as [v | ]; cbn; try discriminate.
    destruct (Json.len v); cbn; try discriminate.
    destruct (print_json_result v) as [H | (e & H & _)];
      destruct (print_json w v) as [tp rp]; cbn in H; subst rp; discriminate.
Qed.



Lemma scan_len_fails pg js v0 v :
  w_evaluate w 0 pg js = Returns v0 ->
  w_evaluate w 1 pg scan_entry_point = Returns v ->
  Json.len v = None ->
  scan w pg js =
    ([Stderr "[SCANNER] Starting DOM scan...";
      Call (Evaluate pg js);
      Call (Evaluate pg scan_entry_point);
      Stderr ("[SCANNER] ERROR - Scan failed: " ++ exc_str (len_type_error v))],
     Val tt).
Proof.
  intros H0 H1 Hl. unfold scan, py_len. rewrite (bind_request_returns _ _ _ _ H0).
  cbn [fst snd]. rewrite (bind_request_returns _ _ _ _ H1). cbn [fst snd].
  rewrite Hl. reflexivity.
Qed.

Lemma scan_prints pg js v0 v n :
  w_evaluate w 0 pg js = Returns v0 ->
  w_evaluate w 1 pg scan_entry_point = Returns v ->
  Json.len v = Some n ->
  scan w pg js =
    (Stderr "[SCANNER] Starting DOM scan..."
     :: Call (Evaluate pg js)
     :: Call (Evaluate pg scan_entry_point)
     :: Stderr ("[SCANNER] Scan complete - found " ++ str_of_nat n ++ " elements")
     :: fst (print_json w v),
     snd (print_json w v)).
Proof.
  intros H0 H1 Hl. unfold scan, py_len.
  rewrite (bind_request_returns _ _ _ _ H0). cbn [fst snd].
  rewrite (bind_request_returns _ _ _ _ H1). cbn [fst snd].
  rewrite Hl. rewrite bind_ret_l. rewrite bind_log.
  destruct (print_json_result v) as [H | (e & H & He)];
    destruct (print_json w v) as [tp rp]; cbn in H; subst rp; cbn;
    rewrite ?He; reflexivity.
Qed.

Lemma request_snd_val {A} c (o : outcome A) a :
  snd (request c o) = Val a -> o = Returns a.
Proof. destruct o; cbn; intros H; inversion H; reflexivity. Qed.

(** The scan phase puts nothing on the primary output channel, unless
    both [evaluate] calls return, the value has a length and [json.dumps]
    returns a text; then the print and what follows it come after the
    completion line. *)
Lemma scan_stdout pg js :
  Forall not_stdout (fst (scan w pg js)) \/
  exists v0 v n text,
    w_evaluate w 0 pg js = Returns v0 /\
    w_evaluate w 1 pg scan_entry_point = Returns v /\
    Json.len v = Some n /\
    Json.dumps v = Returns text /\
    scan w pg js =
      (Stderr "[SCANNER] Starting DOM scan..."
       :: Call (Evaluate pg js)
       :: Call (Evaluate pg scan_entry_point)
       :: Stderr ("[SCANNER] Scan complete - found " ++ str_of_nat n ++ " elements")
       :: fst (print_json w v),
       snd (print_json w v)).
Proof.
  destruct (w_evaluate w 0 pg js) as [v0 | e] eqn:H0.
  2:{ left. unfold scan. rewrite (bind_request_raises _ _ _ _ H0). cbn.
      destruct (is_Exception e); repeat constructor. }
  destruct (w_evaluate w 1 pg scan_entry_point) as [v | e] eqn:H1.
  2:{ left. unfold scan. rewrite (bind_request_returns _ _ _ _ H0). cbn [fst snd].
      rewrite (bind_request_raises _ _ _ _ H1). cbn.
      destruct (is_Exception e); repeat constructor. }
  destruct (Json.len v) as [n | ] eqn:Hl.
  2:{ left. rewrite (scan_len_fails pg js v0 v H0 H1 Hl). repeat constructor. }
  destruct (Json.dumps v) as [text | e] eqn:Hd.
  - right. exists v0, v, n, text.
    repeat (split; [assumption || reflexivity | ]).
    apply (scan_prints pg js v0 v n H0 H1 Hl).
  - left. rewrite (scan_prints pg js v0 v n H0 H1 Hl).
    rewrite (print_json_unserializable v e Hd). repeat constructor.
Qed.

(** *** Phase 3 *)

Lemma finalize_existing fuel ko s :
  s_is_existing s = true ->
  finalize w fuel ko s =
    ([Stderr ("[SCANNER] Browser lifecycle - is_existing: True, keep_open: " ++
              str_of_bool (String.eqb (lower ko) "true"));
      Stderr "[SCANNER] Connected to existing browser - leaving it open (not calling close())"],
     Val tt).
Proof. unfold finalize. intros ->. reflexivity. Qed.

(** While every poll answers that the browser is connected and every
    sleep returns, the loop goes on: [fuel] rounds leave it unfinished. *)
Lemma poll_connected fuel b i :
  (forall j, i <= j < i + fuel ->
             w_is_connected w j = Returns true /\ w_sleep w j = Returns tt) ->
  poll w fuel b i = (rounds fuel b, Pending).
Proof.
  revert i. induction fuel as [ | fuel IH]; intros i Hc; cbn [poll rounds].
  - reflexivity.
  - destruct (Hc i ltac:(lia)) as [Hi Hs].
    rewrite (bind_request_returns _ _ _ _ Hi). cbn [fst snd].
    rewrite (bind_request_returns _ _ _ _ Hs). cbn [fst snd].
    rewrite IH; [reflexivity | ]. intros j Hj. apply Hc. lia.
Qed.

(** The loop is left only at a round whose poll answers false or raises,
    or whose sleep raises; every round before it polled and slept. *)
Lemma poll_finished fuel b i :
  snd (poll w fuel b i) <> Pending ->
  exists j,
    i <= j < i + fuel /\
    (forall k, i <= k < j ->
               w_is_connected w k = Returns true /\ w_sleep w k = Returns tt) /\
    (w_is_connected w j = Returns false \/
     (exists e, w_is_connected w j = Raises e) \/
     (exists e, w_sleep w j = Raises e)).
Proof.
  revert i. induction fuel as [ | fuel IH]; intros i; cbn [poll].
  - cbn. congruence.
  - destruct (w_is_connected w i) as [[ | ] | e] eqn:Hi.
    + destruct (w_sleep w i) as [[] | e] eqn:Hs.
      * rewrite (bind_request_returns _ _ _ _ eq_refl). cbn [fst snd].
        rewrite (bind_request_returns _ _ _ _ eq_refl). cbn [fst snd].
        intros Hp. destruct (IH (S i) Hp) as (j & Hj & Hbefore & Hat).
        exists j. split; [lia | ]. split; [ | exact Hat].
        intros k Hk. destruct (Nat.eq_dec k i) as [-> | Hne]; [auto | ].
        apply Hbefore. lia.
      * intros _. exists i. split; [lia | ]. split; [intros; lia | ].
        right. right. exists e. exact Hs.
    + intros _. exists i. split; [lia | ]. split; [intros; lia | ]. auto.
    + intros _. exists i. split; [lia | ]. split; [intros; lia | ].
      right. left. exists e. exact Hi.
Qed.

(** With fuel to spare, the loop ends at the first poll that answers
    false. *)
Lemma poll_disconnected fuel b i n :
  (forall j, i <= j < i + n ->
             w_is_connected w j = Returns true /\ w_sleep w j = Returns tt) ->
  w_is_connected w (i + n) = Returns false ->
  n < fuel ->
  poll w fuel b i = ((rounds n b ++ [Call (IsConnected b)])%list, Val tt).
Proof.
  revert i fuel. induction n as [ | n IH]; intros i fuel Hc Hd Hlt.
  - destruct fuel as [ | fuel]; [lia | ]. cbn [poll rounds].
    rewrite Nat.add_0_r in Hd. rewrite (bind_request_returns _ _ _ _ Hd). reflexivity.
  - destruct fuel as [ | fuel]; [lia | ]. cbn [poll rounds].
    destruct (Hc i ltac:(lia)) as [Hi Hs].
    rewrite (bind_request_returns _ _ _ _ Hi). cbn [fst snd].
    rewrite (bind_request_returns _ _ _ _ Hs). cbn [fst snd].
    rewrite (IH (S i) fuel); [reflexivity | | | lia].
    + intros j Hj. apply Hc. lia.
    + replace (S i + n) with (i + S n) by lia. exact Hd.
Qed.

(** The finalizer on a launched browser that is to be kept open. *)
Lemma finalize_keep_open fuel ko s :
  s_is_existing s = false ->
  String.eqb (lower ko) "true" = true ->
  finalize w fuel ko s =
    let watch :=
      try_except
        (poll w fuel (s_browser s) 0 ;; log "[SCANNER] Browser was closed by user")
        [(is_KeyboardInterrupt,
          fun _ => log "[SCANNER] Scan interrupted by user");
         (is_Exception,
          fun e => log ("[SCANNER] Browser monitoring error: " ++ exc_str e))] in
    (Stderr "[SCANNER] Browser lifecycle - is_existing: False, keep_open: True"
     :: Stderr "[SCANNER] Browser launched. Keeping open for CDP access..."
     :: Stderr "[SCANNER] Browser will stay open until manually closed by user"
     :: fst watch, snd watch).
Proof.
  intros Hf Hk. unfold finalize. rewrite Hf, Hk. rewrite !bind_log. reflexivity.
Qed.

Lemma finalize_pending_iff fuel ko s :
  s_is_existing s = false ->
  String.eqb (lower ko) "true" = true ->
  (snd (finalize w fuel ko s) = Pending <->
   snd (poll w fuel (s_browser s) 0) = Pending).
Proof.
  intros Hf Hk. rewrite (finalize_keep_open fuel ko s Hf Hk). cbn [snd].
  destruct (poll w fuel (s_browser s) 0) as [t [[] | e | c | ]]; cbn.
  - split; discriminate.
  - destruct (is_KeyboardInterrupt e); [split; discriminate | ].
    destruct (is_Exception e); split; discriminate.
  - split; discriminate.
  - tauto.
Qed.

Lemma finalize_events fuel ko s : always finalizer_event (finalize w fuel ko s).
Proof. unfold finalize. always_walk ltac:(exact I). Qed.

Lemma finalize_not_stdout fuel ko s : always not_stdout (finalize w fuel ko s).
Proof. unfold finalize. always_walk ltac:(exact I). Qed.

Lemma finalize_not_evaluate fuel ko s : always not_evaluate (finalize w fuel ko s).
Proof. unfold finalize. always_walk ltac:(exact I). Qed.

(** *** The whole run *)

Lemma with_playwright_started {A} (body : M A) :
  w_start_playwright w = Returns tt ->
  with_playwright w body =
    match body with
    | (t, Val a) => (Call StartPlaywright :: t ++ [Call StopPlaywright], Val a)
    | (t, Exc e) => (Call StartPlaywright :: t ++ [Call StopPlaywright], Exc e)
    | (t, r) => (Call StartPlaywright :: t, r)
    end%list.
Proof.
  intros Hs. unfold with_playwright. rewrite Hs.
  destruct body as [t [a | e | c | ]]; reflexivity.
Qed.

Lemma with_playwright_inv_val {A} (body : M A) t a :
  with_playwright w body = (t, Val a) ->
  w_start_playwright w = Returns tt /\
  exists t', body = (t', Val a) /\
             t = (Call StartPlaywright :: t' ++ [Call StopPlaywright])%list.
Proof.
  unfold with_playwright.
  destruct (w_start_playwright w) as [[] | e]; cbn; [ | discriminate].
  destruct body as [t' [a' | e | c | ]]; cbn; try discriminate.
  intros H. inversion H; subst. split; [reflexivity | ]. exists t'. auto.
Qed.

Lemma conclude_after (t : trace) (m : M unit) :
  conclude (bind (t, Val tt) (fun _ => m)) =
    ((t ++ fst (conclude m))%list, snd (conclude m)).
Proof.
  destruct m as [tm [[] | e | c | ]]; cbn; try reflexivity.
  - rewrite <- app_assoc. reflexivity.
  - destruct (is_Exception e); cbn; rewrite <- app_assoc; reflexivity.
Qed.

Lemma conclude_always P (m : M unit) :
  P (Call StopPlaywright) -> (forall line, P (Stderr line)) ->
  always P m -> always P (conclude m).
Proof.
  intros H1 H2. unfold always. destruct m as [t [[] | e | c | ]]; cbn; auto.
  - intros H. apply Forall_app. split; [exact H | repeat constructor; auto].
  - intros H. destruct (is_Exception e); cbn; apply Forall_app;
      (split; [exact H | repeat constructor; auto]).
Qed.

Lemma conclude_trace (m : M unit) :
  exists t', fst (conclude m) = (fst m ++ t')%list.
Proof.
  destruct m as [t [[] | e | c | ]]; cbn;
    try (eexists; reflexivity);
    try (exists []; rewrite app_nil_r; reflexivity).
  destruct (is_Exception e); eexists; reflexivity.
Qed.

Lemma conclude_not_stdout (m : M unit) :
  always not_stdout m -> always not_stdout (conclude m).
Proof.
  unfold always. destruct m as [t [[] | e | c | ]]; cbn; auto.
  - intros H. apply Forall_app. split; [exact H | repeat constructor].
  - intros H. destruct (is_Exception e); cbn; apply Forall_app;
      (split; [exact H | repeat constructor]).
Qed.

(** Nothing reaches the primary output channel except through the scan
    phase of a run that got as far as a session. *)
Lemma run_not_stdout_unless fuel path url hm ko :
  (forall js t s,
     w_read_file w path = Returns js ->
     w_start_playwright w = Returns tt ->
     resolve_session w url hm = (t, Val s) ->
     Forall not_stdout (fst (scan w (s_page s) js))) ->
  Forall not_stdout (fst (run_scan w fuel path url hm ko)).
Proof.
  intros Hscan. change (always not_stdout (run_scan w fuel path url hm ko)).
  unfold run_scan.
  apply always_bind; [always_walk ltac:(exact I) | intros _ _].
  apply always_bind; [always_walk ltac:(exact I) | intros _ _].
  apply always_try_except_all; [ | always_clauses; always_walk ltac:(exact I)].
  apply always_bind; [always_walk ltac:(exact I) | intros js Hjs].
  apply request_snd_val in Hjs.
  unfold with_playwright.
  apply always_bind; [always_walk ltac:(exact I) | intros [] Hstart].
  apply request_snd_val in Hstart.
  assert (Hbody : always not_stdout
            (s <- resolve_session w url hm;;
             scan w (s_page s) js;; finalize w fuel ko s)).
  { apply always_bind; [apply resolve_session_not_stdout | intros s Hs].
    apply always_bind; [ | intros _ _; apply finalize_not_stdout].
    apply (Hscan js (fst (resolve_session w url hm)) s Hjs Hstart).
    rewrite <- Hs. apply surjective_M. }
  unfold always in *.
  destruct (s <- resolve_session w url hm;;
            scan w (s_page s) js;; finalize w fuel ko s) as [t [[] | e | c | ]];
    cbn [fst] in *; auto;
    apply Forall_app_intro; auto; repeat constructor.
Qed.

(** Once the script file is read, Playwright is started and phase 1 has
    given a session, the run is the scan, the finalizer and the way out. *)
Lemma run_scan_session fuel path url hm ko js t s :
  w_read_file w path = Returns js ->
  w_start_playwright w = Returns tt ->
  resolve_session w url hm = (t, Val s) ->
  run_scan w fuel path url hm ko =
    let r := conclude (scan w (s_page s) js ;; finalize w fuel ko s) in
    ((preamble path url hm ko ++ t ++ fst r)%list, snd r).
Proof.
  intros Hread Hstart Hres. unfold run_scan.
  rewrite bind_log. rewrite (bind_request_returns _ _ _ _ eq_refl). cbn [fst snd].
  rewrite (bind_request_returns _ _ _ _ Hread).
  rewrite (with_playwright_started _ Hstart).
  rewrite (bind_val _ _ _ _ Hres).
  destruct (scan w (s_page s) js;; finalize w fuel ko s) as [t' [[] | e | c | ]];
    cbn; try reflexivity.
  - rewrite <- app_assoc. reflexivity.
  - destruct (is_Exception e); cbn; rewrite <- !app_assoc; reflexivity.
Qed.

(** The run whose scan phase gets to the print and ends with a value. *)
Lemma run_scan_prints fuel path url hm ko js t s v0 v n :
  w_read_file w path = Returns js ->
  w_start_playwright w = Returns tt ->
  resolve_session w url hm = (t, Val s) ->
  w_evaluate w 0 (s_page s) js = Returns v0 ->
  w_evaluate w 1 (s_page s) scan_entry_point = Returns v ->
  Json.len v = Some n ->
  snd (print_json w v) = Val tt ->
  run_scan w fuel path url hm ko =
    ((preamble path url hm ko ++ t ++
      [Stderr "[SCANNER] Starting DOM scan...";
       Call (Evaluate (s_page s) js);
       Call (Evaluate (s_page s) scan_entry_point);
       Stderr ("[SCANNER] Scan complete - found " ++ str_of_nat n ++ " elements")] ++
      fst (print_json w v) ++ fst (conclude (finalize w fuel ko s)))%list,
     snd (conclude (finalize w fuel ko s))).
Proof.
  intros Hread Hstart Hres H0 H1 Hl Hp.
  rewrite (run_scan_session fuel path url hm ko js t s Hread Hstart Hres).
  cbv zeta. rewrite (scan_prints _ _ v0 v n H0 H1 Hl). rewrite Hp.
  rewrite conclude_after. cbn [fst snd app].
  rewrite <- !app_comm_cons. reflexivity.
Qed.

(** The run whose scan phase lets an exception through. *)
Lemma run_scan_scan_raises fuel path url hm ko js t s ts e :
  w_read_file w path = Returns js ->
  w_start_playwright w = Returns tt ->
  resolve_session w url hm = (t, Val s) ->
  scan w (s_page s) js = (ts, Exc e) ->
  run_scan w fuel path url hm ko =
    ((preamble path url hm ko ++ t ++ ts ++ [Call StopPlaywright])%list, Exc e).
Proof.
  intros Hread Hstart Hres Hscan.
  rewrite (run_scan_session fuel path url hm ko js t s Hread Hstart Hres).
  cbv zeta. rewrite (bind_exc _ _ _ _ Hscan).
  destruct (scan_result (s_page s) js) as [H | (e' & H & He)];
    rewrite Hscan in H; cbn in H; [discriminate | ].
  inversion H; subst e'. cbn [conclude]. rewrite He. reflexivity.
Qed.

(** A run that writes to the primary output channel has got to the print
    of the scan phase; what follows the print and the flush writes nothing
    more to the channel and makes no [evaluate] call. *)
Lemma run_scan_output fuel path url hm ko chunk :
  In (Stdout chunk) (fst (run_scan w fuel path url hm ko)) ->
  exists js t s v0 v n text tail,
    w_read_file w path = Returns js /\
    resolve_session w url hm = (t, Val s) /\
    w_evaluate w 0 (s_page s) js = Returns v0 /\
    w_evaluate w 1 (s_page s) scan_entry_point = Returns v /\
    Json.len v = Some n /\
    Json.dumps v = Returns text /\
    fst (run_scan w fuel path url hm ko) =
      (preamble path url hm ko ++ t ++
       [Stderr "[SCANNER] Starting DOM scan...";
        Call (Evaluate (s_page s) js);
        Call (Evaluate (s_page s) scan_entry_point);
        Stderr ("[SCANNER] Scan complete - found " ++ str_of_nat n ++ " elements")] ++
       fst (print_json w v) ++ tail)%list /\
    Forall not_stdout tail /\ Forall not_evaluate tail.
Proof.
  intros Hin.
  assert (Hout : ~ Forall not_stdout (fst (run_scan w fuel path url hm ko))).
  { intros H. rewrite Forall_forall in H. exact (H _ Hin). }
  destruct (w_read_file w path) as [js | e] eqn:Hread.
  2:{ exfalso. apply Hout.
      apply run_not_stdout_unless. intros; congruence. }
  destruct (w_start_playwright w) as [[] | e] eqn:Hstart.
  2:{ exfalso. apply Hout.
      apply run_not_stdout_unless. intros; congruence. }
  destruct (resolve_session w url hm) as [t [s | e | c | ]] eqn:Hres;
    try (exfalso; apply Hout;
         apply run_not_stdout_unless; intros; congruence).
  destruct (scan_stdout (s_page s) js)
    as [Hno | (v0 & v & n & text & H0 & H1 & Hl & Hd & Hscan)].
  { exfalso. apply Hout.
    apply run_not_stdout_unless. intros js' t' s' E1 _ E3.
    assert (js' = js) by congruence. assert (s' = s) by congruence.
    subst. exact Hno. }
  exists js, t, s, v0, v, n, text.
  destruct (print_json_result v) as [Hp | (e & Hp & He)].
  - exists (fst (conclude (finalize w fuel ko s))).
    repeat (split; [assumption || reflexivity | ]).
    split; [ | split].
    + rewrite (run_scan_prints fuel path url hm ko js t s v0 v n
                 Hread Hstart Hres H0 H1 Hl Hp). reflexivity.
    + apply conclude_not_stdout. apply finalize_not_stdout.
    + apply conclude_always; [exact I | intros; exact I | ].
      apply finalize_not_evaluate.
  - exists [Call StopPlaywright].
    repeat (split; [assumption || reflexivity | ]).
    split; [ | split; repeat constructor].
    rewrite Hp in Hscan.
    rewrite (run_scan_scan_raises fuel path url hm ko js t s _ e
               Hread Hstart Hres Hscan).
    cbn [fst app]. reflexivity.
Qed.

(** With a session established, the scan is made on the page of the
    session. *)
Lemma run_scan_scans_session_page fuel path url hm ko js t s :
  w_read_file w path = Returns js ->
  w_start_playwright w = Returns tt ->
  resolve_session w url hm = (t, Val s) ->
  scans_page (fst (run_scan w fuel path url hm ko)) (s_page s) js.
Proof.
  intros Hread Hstart Hres.
  rewrite (run_scan_session fuel path url hm ko js t s Hread Hstart Hres).
  cbv zeta. cbn [fst]. split.
  - apply in_or_app. right. apply in_or_app. right.
    destruct (conclude_trace (scan w (s_page s) js;; finalize w fuel ko s))
      as [t' Ht]. rewrite Ht. apply in_or_app. left.
    destruct (bind_trace (scan w (s_page s) js) (fun _ => finalize w fuel ko s))
      as [t2 Ht2]. rewrite Ht2. apply in_or_app. left.
    apply scan_injects.
  - apply Forall_app_intro; [repeat constructor | ].
    apply Forall_app_intro.
    + pose proof (resolve_session_not_evaluate url hm) as H.
      unfold always in H. rewrite Hres in H. cbn in H.
      eapply Forall_impl; [ | exact H]. intros [[] | | ]; cbn; tauto.
    + apply conclude_always; [exact I | intros; exact I | ].
      apply always_bind; [apply scan_evaluates_on | intros _ _].
      pose proof (finalize_not_evaluate fuel ko s) as H. unfold always in *.
      eapply Forall_impl; [ | exact H]. intros [[] | | ]; cbn; tauto.
Qed.

End PhaseFacts.

(* ===================================================================== *)
(** ** Facts about the two threads *)
(* ===================================================================== *)

(** The watchdog issues its read and, when the read is answered in a way
    it has a rule for, the exit. *)
Lemma watchdog_trace w :
  (fst (parent_watchdog w) = [Call ReadStdin] /\
   forall code, snd (parent_watchdog w) <> HardExit code) \/
  exists code,
    parent_watchdog w = ([Call ReadStdin; Call (OsExit code)], HardExit code).
Proof.
  unfold parent_watchdog.
  destruct (w_stdin_read w) as [[data | e] | ]; cbn.
  - right. exists 0%Z. reflexivity.
  - destruct (is_Exception e); cbn.
    + right. exists 1%Z. reflexivity.
    + left. split; [reflexivity | discriminate].
  - left. split; [reflexivity | discriminate].
Qed.

Lemma watchdog_exit_code w code :
  snd (parent_watchdog w) = HardExit code ->
  (code = 0%Z /\ exists data, w_stdin_read w = Some (Returns data)) \/
  (code = 1%Z /\ exists e, w_stdin_read w = Some (Raises e) /\
                          is_Exception e = true).
Proof.
  unfold parent_watchdog.
  destruct (w_stdin_read w) as [[data | e] | ]; cbn.
  - intros H. inversion H. left. split; [reflexivity | ]. exists data. reflexivity.
  - destruct (is_Exception e) eqn:He; cbn; [ | discriminate].
    intros H. inversion H. right. split; [reflexivity | ]. exists e. auto.
  - discriminate.
Qed.

Lemma watchdog_calls w : Forall call_event (fst (parent_watchdog w)).
Proof.
  destruct (watchdog_trace w) as [[H _] | [code H]]; rewrite H;
    repeat constructor.
Qed.

Lemma watchdog_exit_event w code :
  In (Call (OsExit code)) (fst (parent_watchdog w)) ->
  snd (parent_watchdog w) = HardExit code.
Proof.
  destruct (watchdog_trace w) as [[H _] | [c H]]; rewrite H; cbn.
  - intros [E | []]. discriminate.
  - intros [E | [E | []]]; [discriminate | ]. inversion E. reflexivity.
Qed.

(** What holds of every event of the two threads holds of every event of
    the process. *)
Lemma race_always (P : event -> Prop) sch :
  forall started main r dog,
    Forall P main -> Forall P dog -> Forall P (fst (race sch started main r dog)).
Proof.
  induction sch as [ | [ | ] sch IH]; intros started main r dog Hm Hd;
    cbn [race].
  - exact Hm.
  - destruct main as [ | ev main'].
    + destruct r; try constructor. apply IH; assumption.
    + inversion Hm; subst.
      specialize (IH (orb started (starts_watchdog ev)) main' r dog).
      destruct (race sch (orb started (starts_watchdog ev)) main' r dog).
      cbn [fst] in *. constructor; auto.
  - destruct started; [ | apply IH; assumption].
    destruct dog as [ | ev dog']; [apply IH; assumption | ].
    inversion Hd; subst.
    assert (Hstep : Forall P (ev :: fst (race sch true main r dog'))).
    { constructor; auto. }
    destruct ev as [[] | | ];
      try (destruct (race sch true main r dog'); exact Hstep).
    repeat constructor. assumption.
Qed.

(** A process ends as its main flow does, having done all the main flow
    does, or it is ended by the exit of the watchdog, having done a
    leading part of it. *)
Lemma race_cases sch :
  forall started main r dog,
    Forall call_event dog ->
    (snd (race sch started main r dog) = r /\
     stderr_of (fst (race sch started main r dog)) = stderr_of main /\
     stdout_of (fst (race sch started main r dog)) = stdout_of main) \/
    (exists code,
       snd (race sch started main r dog) = HardExit code /\
       In (Call (OsExit code)) dog /\
       leading_lines (stderr_of (fst (race sch started main r dog)))
                     (stderr_of main) /\
       leading_part (stdout_of (fst (race sch started main r dog)))
                    (stdout_of main)).
Proof.
  induction sch as [ | [ | ] sch IH]; intros started main r dog Hd; cbn [race].
  - left. auto.
  - destruct main as [ | ev main'].
    + destruct r as [a | e | c | ]; [left; cbn; auto .. | apply IH; exact Hd].
    + specialize (IH (orb started (starts_watchdog ev)) main' r dog Hd).
      destruct (race sch (orb started (starts_watchdog ev)) main' r dog)
        as [t r'].
      cbn [fst snd] in *.
      destruct IH as [(Hr & He & Ho) | (code & Hr & Hin & [re He] & [ro Ho])].
      * left. split; [exact Hr | ].
        destruct ev; cbn [stderr_of stdout_of]; rewrite ?He, ?Ho; auto.
      * right. exists code. split; [exact Hr | ]. split; [exact Hin | ].
        destruct ev as [c | line | text]; cbn [stderr_of stdout_of].
        -- split; [exists re | exists ro]; assumption.
        -- split; [exists re; rewrite He; reflexivity | exists ro; assumption].
        -- split; [exists re; assumption | ].
           exists ro. rewrite Ho. rewrite append_assoc. reflexivity.
  - destruct started; [ | apply IH; exact Hd].
    destruct dog as [ | ev dog']; [apply IH; exact Hd | ].
    inversion Hd as [ | ? ? Hev Hd']; subst.
    assert (Hstep :
      (snd (race sch true main r dog') = r /\
       stderr_of (ev :: fst (race sch true main r dog')) = stderr_of main /\
       stdout_of (ev :: fst (race sch true main r dog')) = stdout_of main) \/
      (exists code,
         snd (race sch true main r dog') = HardExit code /\
         In (Call (OsExit code)) (ev :: dog') /\
         leading_lines (stderr_of (ev :: fst (race sch true main r dog')))
                       (stderr_of main) /\
         leading_part (stdout_of (ev :: fst (race sch true main r dog')))
                      (stdout_of main))).
    { destruct ev as [c | | ]; try contradiction. cbn [stderr_of stdout_of].
      destruct (IH true main r dog' Hd') as [H | (code & Hr & Hin & H)].
      - left. exact H.
      - right. exists code. split; [exact Hr | ]. split; [right; exact Hin | exact H]. }
    destruct ev as [[] | | ];
      try (destruct (race sch true main r dog'); exact Hstep).
    right. exists code. cbn [fst snd stderr_of stdout_of].
    split; [reflexivity | ]. split; [left; reflexivity | ].
    split; [exists (stderr_of main); reflexivity | apply leading_part_empty].
Qed.

(** The same for a main flow and the watchdog of a world. *)
Lemma process_cases w sch (m : M unit) :
  (snd (process w sch m) = snd m /\
   stderr_of (fst (process w sch m)) = stderr_of (fst m) /\
   stdout_of (fst (process w sch m)) = stdout_of (fst m)) \/
  (exists code,
     snd (process w sch m) = HardExit code /\
     snd (parent_watchdog w) = HardExit code /\
     leading_lines (stderr_of (fst (process w sch m))) (stderr_of (fst m)) /\
     leading_part (stdout_of (fst (process w sch m))) (stdout_of (fst m))).
Proof.
  unfold process.
  destruct (race_cases sch false (fst m) (snd m) (fst (parent_watchdog w))
              (watchdog_calls w)) as [H | (code & Hr & Hin & H)].
  - left. exact H.
  - right. exists code. split; [exact Hr | ].
    split; [apply watchdog_exit_event; exact Hin | exact H].
Qed.

(** While the watchdog has no exit to make, the process is its main
    flow. *)
Lemma process_unwatched w sch (m : M unit) :
  (forall code, snd (parent_watchdog w) <> HardExit code) ->
  snd (process w sch m) = snd m /\
  stderr_of (fst (process w sch m)) = stderr_of (fst m) /\
  stdout_of (fst (process w sch m)) = stdout_of (fst m).
Proof.
  intros Hno. destruct (process_cases w sch m) as [H | (code & _ & Hw & _)].
  - exact H.
  - exfalso. exact (Hno code Hw).
Qed.

Lemma process_always (P : event -> Prop) w sch (m : M unit) :
  Forall P (fst m) -> P (Call ReadStdin) -> (forall code, P (Call (OsExit code))) ->
  Forall P (fst (process w sch m)).
Proof.
  intros Hm H1 H2. unfold process. apply race_always; [exact Hm | ].
  destruct (watchdog_trace w) as [[H _] | [code H]]; rewrite H;
    repeat constructor; auto.
Qed.

Lemma leading_part_of_empty (a : string) : leading_part a EmptyString -> a = EmptyString.
Proof. intros [r H]. destruct a; [reflexivity | discriminate]. Qed.

(* ===================================================================== *)
(** ** The text of [json.dumps] is JSON *)
(* ===================================================================== *)

Module JsonFacts.

Import Json JsonSyntax.

(** *** Digits *)

Lemma skip_digits_app s r :
  all_digits s = true -> skip_digits (s ++ r) = skip_digits r.
Proof.
  induction s as [ | c s IH]; cbn; [reflexivity | ].
  intros H. apply andb_prop in H. destruct H as [Hc Hs].
  rewrite Hc. apply IH. exact Hs.
Qed.

Lemma skip_digits_stops r : stops r = true -> skip_digits r = r.
Proof.
  destruct r as [ | c r]; cbn; [reflexivity | ].
  destruct (is_digit c); cbn; [discriminate | reflexivity].
Qed.

Lemma all_digits_app a b :
  all_digits a = true -> all_digits b = true -> all_digits (a ++ b) = true.
Proof.
  induction a as [ | c a IH]; cbn; [auto | ].
  intros H Hb. apply andb_prop in H. destruct H as [Hc Ha].
  rewrite Hc. cbn. auto.
Qed.

Lemma all_digits_uint d : all_digits (NilEmpty.string_of_uint d) = true.
Proof. induction d; cbn; auto. Qed.

Lemma all_digits_zeros n : all_digits (zeros n) = true.
Proof. induction n; cbn; auto. Qed.

Lemma all_digits_take n s : all_digits s = true -> all_digits (take n s) = true.
Proof.
  revert s. induction n as [ | n IH]; intros [ | c s]; cbn; auto.
  intros H. apply andb_prop in H. destruct H as [Hc Hs]. rewrite Hc. cbn. auto.
Qed.

Lemma all_digits_drop n s : all_digits s = true -> all_digits (drop n s) = true.
Proof.
  revert s. induction n as [ | n IH]; intros [ | c s]; cbn; auto.
  intros H. apply andb_prop in H. destruct H as [Hc Hs]. auto.
Qed.

Lemma drop_nonempty n s :
  n < String.length s -> exists c r, drop n s = String c r.
Proof.
  revert s. induction n as [ | n IH]; intros [ | c s]; cbn; try lia.
  - intros _. eauto.
  - intros H. apply IH. lia.
Qed.

Lemma skip_digits_other c r :
  is_digit c = false -> skip_digits (String c r) = String c r.
Proof. intros H. cbn. rewrite H. reflexivity. Qed.

Lemma digits1_run s r :
  s <> EmptyString -> all_digits s = true -> skip_digits r = r ->
  digits1 (s ++ r) = Some r.
Proof.
  destruct s as [ | c s]; [congruence | ]. cbn. intros _ H Hr.
  apply andb_prop in H. destruct H as [Hc Hs]. rewrite Hc.
  rewrite (skip_digits_app s r Hs), Hr. reflexivity.
Qed.

Lemma parse_frac_stops r : stops r = true -> parse_frac r = Some r.
Proof.
  destruct r as [ | c r]; cbn; [reflexivity | ].
  destruct (code c =? 46)%N; [ | reflexivity].
  rewrite !orb_true_r. discriminate.
Qed.

Lemma parse_exp_stops r : stops r = true -> parse_exp r = Some r.
Proof.
  destruct r as [ | c r]; cbn; [reflexivity | ].
  destruct (code c =? 101)%N; [rewrite !orb_true_r; discriminate | ].
  destruct (code c =? 69)%N; [rewrite !orb_true_r; discriminate | ].
  reflexivity.
Qed.

(** *** Integers *)

Lemma to_uint_normal p : unorm (Pos.to_uint p) = Pos.to_uint p.
Proof.
  pose proof (DecimalPos.Unsigned.to_of (Pos.to_uint p)) as H.
  rewrite DecimalPos.Unsigned.of_to in H. symmetry. exact H.
Qed.

(** The decimal form of a positive number starts with a digit from 1 to
    9 and goes on with digits. *)
Lemma positive_text p :
  exists c s,
    NilZero.string_of_uint (Pos.to_uint p) = String c s /\
    is_digit c = true /\ (code c =? 48)%N = false /\ (code c =? 45)%N = false /\
    all_digits s = true.
Proof.
  pose proof (to_uint_normal p) as Hn.
  pose proof (DecimalPos.Unsigned.to_uint_nonzero p) as Hz.
  destruct (Pos.to_uint p) as [ | u | u | u | u | u | u | u | u | u | u] eqn:Hd;
    try (eexists; eexists; cbn; repeat split; try reflexivity;
         apply all_digits_uint).
  - exfalso. apply (DecimalPos.Unsigned.to_uint_nonnil p). exact Hd.
  - exfalso. rewrite DecimalFacts.unorm_D0 in Hn.
    destruct u as [ | u' | u' | u' | u' | u' | u' | u' | u' | u' | u'] eqn:Hu;
      [apply Hz; reflexivity | ..];
      (assert (Hnn : u <> Nil) by (subst u; discriminate);
       pose proof (DecimalFacts.nb_digits_unorm u Hnn) as Hle;
       subst u; rewrite Hn in Hle; cbn in Hle; lia).
Qed.

(** How [parse_number] goes through a sign, an integer part and the
    point where the number ends. *)
Lemma parse_number_unsigned c s :
  (code c =? 45)%N = false ->
  parse_number (String c s) = after_int (parse_int (String c s)).
Proof. intros H. unfold parse_number. rewrite H. reflexivity. Qed.

Lemma parse_number_minus s :
  parse_number (String "-" s) = after_int (parse_int s).
Proof. reflexivity. Qed.

Lemma parse_int_nonzero c s :
  is_digit c = true -> (code c =? 48)%N = false ->
  parse_int (String c s) = Some (skip_digits s).
Proof. intros Hd H0. unfold parse_int. rewrite H0, Hd. reflexivity. Qed.

Lemma parse_int_zero r : parse_int (String "0" r) = Some r.
Proof. reflexivity. Qed.

Lemma after_int_stops r : stops r = true -> after_int (Some r) = Some r.
Proof.
  intros H. unfold after_int. rewrite (parse_frac_stops r H).
  apply parse_exp_stops. exact H.
Qed.

Lemma parse_unsigned_positive p rest :
  stops rest = true ->
  after_int (parse_int (NilZero.string_of_uint (Pos.to_uint p) ++ rest)) = Some rest.
Proof.
  intros Hr. destruct (positive_text p) as (c & s & Hs & Hd & H0 & Hm & Hall).
  rewrite Hs. cbn [append]. rewrite (parse_int_nonzero c _ Hd H0).
  rewrite (skip_digits_app s rest Hall), (skip_digits_stops rest Hr).
  apply after_int_stops. exact Hr.
Qed.

Lemma parse_number_int z rest :
  stops rest = true -> parse_number (str_of_Z z ++ rest) = Some rest.
Proof.
  intros Hr. unfold str_of_Z.
  destruct z as [ | p | p]; cbn [Z.to_int NilZero.string_of_int].
  - change (parse_number (String "0" rest) = Some rest).
    rewrite parse_number_unsigned by reflexivity.
    change (after_int (Some rest) = Some rest). apply after_int_stops. exact Hr.
  - destruct (positive_text p) as (c & s & Hs & Hd & H0 & Hm & Hall).
    pose proof (parse_unsigned_positive p rest Hr) as H.
    rewrite Hs in *. cbn [append] in *.
    rewrite (parse_number_unsigned c _ Hm). exact H.
  - cbn [append]. rewrite parse_number_minus.
    apply parse_unsigned_positive. exact Hr.
Qed.

(** *** Floats *)

Lemma nz_char_digit d :
  is_digit (nz_char d) = true /\ (code (nz_char d) =? 48)%N = false /\
  (code (nz_char d) =? 45)%N = false.
Proof. destruct d; repeat split; reflexivity. Qed.

Lemma parse_int_run c s r :
  is_digit c = true -> (code c =? 48)%N = false ->
  all_digits s = true -> skip_digits r = r ->
  parse_int (String c (s ++ r)) = Some r.
Proof.
  intros Hd H0 Hs Hr. rewrite (parse_int_nonzero c _ Hd H0).
  rewrite (skip_digits_app s r Hs), Hr. reflexivity.
Qed.

Lemma parse_frac_run s r :
  s <> EmptyString -> all_digits s = true -> skip_digits r = r ->
  parse_frac (String "." (s ++ r)) = Some r.
Proof. intros Hne Hs Hr. cbn. apply digits1_run; assumption. Qed.

Lemma all_digits_nonneg z : (0 <= z)%Z -> all_digits (str_of_Z z) = true.
Proof.
  intros Hz. unfold str_of_Z. destruct z as [ | p | p]; [reflexivity | | lia].
  cbn [Z.to_int NilZero.string_of_int].
  destruct (positive_text p) as (c & s & Hs & Hd & _ & _ & Hall).
  rewrite Hs. cbn. rewrite Hd, Hall. reflexivity.
Qed.

Lemma str_of_Z_nonempty z : str_of_Z z <> EmptyString.
Proof.
  unfold str_of_Z. destruct z as [ | p | p]; cbn [Z.to_int NilZero.string_of_int];
    try discriminate.
  destruct (positive_text p) as (c & s & Hs & _). rewrite Hs. discriminate.
Qed.

(** The exponent of the scientific form is an exponent of the grammar. *)
Lemma parse_exp_str e r :
  stops r = true -> parse_exp (String "e" (exp_str e ++ r)) = Some r.
Proof.
  intros Hr. unfold exp_str.
  assert (Hd : forall pad, all_digits pad = true ->
            digits1 ((pad ++ str_of_Z (Z.abs e)) ++ r) = Some r).
  { intros pad Hp. apply digits1_run; [ | | exact (skip_digits_stops r Hr)].
    - destruct pad; cbn; [apply str_of_Z_nonempty | discriminate].
    - apply all_digits_app; [exact Hp | ].
      apply all_digits_nonneg. lia. }
  destruct (e <? 0)%Z; cbn [append parse_exp code N_of_ascii N.eqb orb];
    destruct (Z.abs e <? 10)%Z;
    first [ exact (Hd "0" eq_refl) | exact (Hd EmptyString eq_refl) ].
Qed.

Lemma after_int_finite lead more decpt rest :
  stops rest = true ->
  exists c s,
    finite_repr false lead more decpt = String c s /\
    (code c =? 45)%N = false /\
    after_int (parse_int (String c s ++ rest)) = Some rest.
Proof.
  intros Hr. unfold finite_repr. cbn [append].
  set (ms := NilEmpty.string_of_uint more).
  assert (Hms : all_digits ms = true) by apply all_digits_uint.
  destruct (nz_char_digit lead) as (Hd & H0 & Hm).
  destruct (orb (decpt <=? -4)%Z (16 <? decpt)%Z).
  - (* scientific *)
    eexists. eexists. split; [reflexivity | ]. split; [exact Hm | ].
    cbn [append]. rewrite append_assoc. cbn [append].
    rewrite (parse_int_nonzero _ _ Hd H0).
    destruct ms as [ | m0 ms'] eqn:Hmseq.
    + cbn [append]. rewrite skip_digits_other by reflexivity.
      unfold after_int. cbn [parse_frac code N_of_ascii N.eqb].
      apply parse_exp_str. exact Hr.
    + cbn [append]. rewrite skip_digits_other by reflexivity.
      unfold after_int.
      change (String m0 (ms' ++ String "e" (exp_str (decpt - 1) ++ rest)))
        with (String m0 ms' ++ String "e" (exp_str (decpt - 1) ++ rest)).
      rewrite parse_frac_run; [ | discriminate | exact Hms | reflexivity].
      apply parse_exp_str. exact Hr.
  - destruct (decpt <=? 0)%Z eqn:Hpos.
    + (* 0.000ddd *)
      eexists. eexists. split; [reflexivity | ]. split; [reflexivity | ].
      cbn [append]. rewrite parse_int_zero. unfold after_int.
      rewrite parse_frac_run; [ | | | exact (skip_digits_stops rest Hr)].
      * apply parse_exp_stops. exact Hr.
      * destruct (zeros (Z.to_nat (- decpt))); discriminate.
      * apply all_digits_app; [apply all_digits_zeros | ].
        cbn. rewrite Hd. exact Hms.
    + destruct (decpt <? Z.of_nat (S (String.length ms)))%Z eqn:Hlt.
      * (* ddd.ddd *)
        eexists. eexists. split; [reflexivity | ]. split; [exact Hm | ].
        cbn [append]. rewrite append_assoc. cbn [append].
        rewrite parse_int_run;
          [ | exact Hd | exact H0 | apply all_digits_take; exact Hms | reflexivity].
        unfold after_int.
        destruct (drop_nonempty (Z.to_nat (decpt - 1)) ms) as (c & r & Hdrop).
        { apply Z.ltb_lt in Hlt. apply Z.leb_gt in Hpos. lia. }
        rewrite parse_frac_run; [ | | | exact (skip_digits_stops rest Hr)].
        -- apply parse_exp_stops. exact Hr.
        -- rewrite Hdrop. discriminate.
        -- apply all_digits_drop. exact Hms.
      * (* ddd000.0 *)
        eexists. eexists. split; [reflexivity | ]. split; [exact Hm | ].
        cbn [append]. rewrite !append_assoc.
        rewrite <- (append_assoc ms).
        rewrite parse_int_run; [ | exact Hd | exact H0 | | reflexivity].
        -- unfold after_int.
           change (".0" ++ rest) with (String "." ("0" ++ rest)).
           rewrite parse_frac_run;
             [ | discriminate | reflexivity | exact (skip_digits_stops rest Hr)].
           apply parse_exp_stops. exact Hr.
        -- apply all_digits_app; [exact Hms | apply all_digits_zeros].
Qed.

(** A float that is not NaN or an infinity prints as a number. *)
Lemma parse_number_float f rest :
  match f with FNan | FInf | FNegInf => False | _ => True end ->
  stops rest = true ->
  parse_number (float_str f ++ rest) = Some rest.
Proof.
  intros Hf Hr. destruct f as [ | | | neg | neg lead more decpt];
    try contradiction.
  - destruct neg; cbn [float_str append].
    + rewrite parse_number_minus. rewrite parse_int_zero. unfold after_int.
      change (String "." (String "0" rest)) with (String "." ("0" ++ rest)).
      rewrite parse_frac_run;
             [ | discriminate | reflexivity | exact (skip_digits_stops rest Hr)].
      apply parse_exp_stops. exact Hr.
    + rewrite parse_number_unsigned by reflexivity.
      rewrite parse_int_zero. unfold after_int.
      change (String "." (String "0" rest)) with (String "." ("0" ++ rest)).
      rewrite parse_frac_run;
             [ | discriminate | reflexivity | exact (skip_digits_stops rest Hr)].
      apply parse_exp_stops. exact Hr.
  - cbn [float_str].
    destruct (after_int_finite lead more decpt rest Hr) as (c & s & Hs & Hm & Hp).
    destruct neg.
    + change (finite_repr true lead more decpt)
        with (String "-" (finite_repr false lead more decpt)).
      cbn [append]. rewrite parse_number_minus. rewrite Hs. exact Hp.
    + rewrite Hs. cbn [append]. rewrite (parse_number_unsigned c _ Hm).
      exact Hp.
Qed.

(** *** Strings *)

Lemma hex_digit_hex n : is_hex (hex_digit n) = true.
Proof.
  unfold hex_digit. destruct (N.land n 15) as [ | p]; [reflexivity | ].
  do 4 (destruct p as [p | p | ]; try reflexivity).
Qed.

Lemma parse_chars_u h1 h2 h3 h4 r :
  is_hex h1 = true -> is_hex h2 = true -> is_hex h3 = true -> is_hex h4 = true ->
  parse_chars (String "\" (String "u" (String h1 (String h2 (String h3 (String h4 r))))))
  = parse_chars r.
Proof. intros H1 H2 H3 H4. cbn. rewrite H1, H2, H3, H4. reflexivity. Qed.

Lemma parse_u_escape n r : parse_chars (u_escape n ++ r) = parse_chars r.
Proof.
  unfold u_escape. cbn [append]. apply parse_chars_u; apply hex_digit_hex.
Qed.

Lemma parse_chars_plain c r :
  (code c =? 34)%N = false -> (code c =? 92)%N = false -> (code c <? 32)%N = false ->
  parse_chars (String c r) = parse_chars r.
Proof. intros H1 H2 H3. cbn. rewrite H1, H2, H3. reflexivity. Qed.

(** What the encoder writes for one character reads back as string
    content. *)
Lemma parse_escape_char c r : parse_chars (escape_char c ++ r) = parse_chars r.
Proof.
  unfold escape_char.
  destruct (c =? 34)%N eqn:H34; [reflexivity | ].
  destruct (c =? 92)%N eqn:H92; [reflexivity | ].
  destruct (c =? 8)%N; [reflexivity | ].
  destruct (c =? 12)%N; [reflexivity | ].
  destruct (c =? 10)%N; [reflexivity | ].
  destruct (c =? 13)%N; [reflexivity | ].
  destruct (c =? 9)%N; [reflexivity | ].
  destruct (andb (32 <=? c) (c <=? 126))%N eqn:Hp.
  - apply andb_prop in Hp. destruct Hp as [Hlo Hhi].
    apply N.leb_le in Hlo. apply N.leb_le in Hhi.
    cbn [append]. apply parse_chars_plain; unfold code;
      rewrite N_ascii_embedding by lia; [exact H34 | exact H92 | ].
    apply N.ltb_ge. exact Hlo.
  - destruct (c <? 65536)%N.
    + apply parse_u_escape.
    + cbv zeta. rewrite append_assoc. rewrite !parse_u_escape. reflexivity.
Qed.

Lemma parse_escape_chars s r :
  parse_chars (escape_chars s ++ String dquote r) = Some r.
Proof.
  induction s as [ | c s IH]; cbn [escape_chars append].
  - reflexivity.
  - rewrite append_assoc. rewrite parse_escape_char. exact IH.
Qed.

(** *** White space and the first character of a value *)

Lemma skip_ws_spaces n r : skip_ws (spaces n ++ r) = skip_ws r.
Proof. induction n as [ | n IH]; cbn; auto. Qed.

Lemma skip_ws_newline_indent lvl r : skip_ws (newline_indent lvl ++ r) = skip_ws r.
Proof.
  unfold newline_indent, newline. rewrite append_assoc. cbn [append].
  change (skip_ws (spaces (2 * lvl) ++ r) = skip_ws r). apply skip_ws_spaces.
Qed.

Lemma skip_ws_other c r : is_ws c = false -> skip_ws (String c r) = String c r.
Proof. intros H. cbn. rewrite H. reflexivity. Qed.

Lemma digit_starts_value c : is_digit c = true -> starts_value c.
Proof.
  unfold is_digit, starts_value, is_ws. intros H. apply andb_prop in H.
  destruct H as [Hlo Hhi]. apply N.leb_le in Hlo. apply N.leb_le in Hhi.
  split; [ | apply N.eqb_neq; lia].
  repeat (apply orb_false_intro); apply N.eqb_neq; lia.
Qed.

Lemma number_starts_value c : starts_number c -> starts_value c.
Proof.
  intros [H | H]; [apply digit_starts_value; exact H | ].
  apply N.eqb_eq in H. unfold starts_value, is_ws. rewrite H.
  split; reflexivity.
Qed.

Lemma str_of_Z_head z :
  exists c s, str_of_Z z = String c s /\ starts_number c.
Proof.
  unfold str_of_Z. destruct z as [ | p | p]; cbn [Z.to_int NilZero.string_of_int].
  - eexists. eexists. split; [reflexivity | left; reflexivity].
  - destruct (positive_text p) as (c & s & Hs & Hd & _).
    exists c, s. split; [exact Hs | left; exact Hd].
  - eexists. eexists. split; [reflexivity | right; reflexivity].
Qed.

Lemma float_str_head f :
  match f with FNan | FInf | FNegInf => False | _ => True end ->
  exists c s, float_str f = String c s /\ starts_number c.
Proof.
  destruct f as [ | | | [ | ] | neg lead more decpt]; intros Hf;
    try contradiction;
    try (eexists; eexists; split; [reflexivity | right; reflexivity]);
    try (eexists; eexists; split; [reflexivity | left; reflexivity]).
  cbn [float_str]. unfold finite_repr.
  destruct neg; [eexists; eexists; split; [reflexivity | right; reflexivity] | ].
  cbn [append].
  destruct (orb (decpt <=? -4)%Z (16 <? decpt)%Z);
    [ | destruct (decpt <=? 0)%Z;
        [ | destruct (decpt <? Z.of_nat (S (String.length (NilEmpty.string_of_uint more))))%Z ] ];
    cbn [append]; eexists; eexists; (split; [reflexivity | ]);
    left; first [reflexivity | apply nz_char_digit].
Qed.

Lemma finite_float f :
  finite (VFloat f) = true ->
  match f with FNan | FInf | FNegInf => False | _ => True end.
Proof. destruct f; cbn; intros H; try discriminate; exact I. Qed.

Lemma encode_head lvl v :
  serializable v = true -> finite v = true ->
  exists c s, encode lvl v = String c s /\ starts_value c.
Proof.
  destruct v as [ | [ | ] | z | f | str | [ | x xs] | [ | [k x] ms] | cls];
    intros Hs Hf; try discriminate;
    try (eexists; eexists; split; [reflexivity | split; reflexivity]).
  - destruct (str_of_Z_head z) as (c & s & H1 & H2).
    exists c, s. split; [exact H1 | apply number_starts_value; exact H2].
  - destruct (float_str_head f (finite_float f Hf)) as (c & s & H1 & H2).
    exists c, s. split; [exact H1 | apply number_starts_value; exact H2].
Qed.

Lemma skip_ws_encode lvl v r :
  serializable v = true -> finite v = true ->
  skip_ws (encode lvl v ++ r) = encode lvl v ++ r.
Proof.
  intros Hs Hf. destruct (encode_head lvl v Hs Hf) as (c & s & He & Hw & _).
  rewrite He. cbn [append]. apply skip_ws_other. exact Hw.
Qed.

(** *** Values *)

(** Induction on values that reaches inside arrays and objects. *)
Lemma value_induction (P : value -> Prop) :
  P VNone -> (forall b, P (VBool b)) -> (forall z, P (VInt z)) ->
  (forall f, P (VFloat f)) -> (forall s, P (VStr s)) ->
  (forall l, Forall P l -> P (VList l)) ->
  (forall m, Forall (fun kv => P (snd kv)) m -> P (VDict m)) ->
  (forall cls, P (VOpaque cls)) ->
  forall v, P v.
Proof.
  intros HN HB HI HF HS HL HD HO.
  fix IH 1. intros [ | b | z | f | s | l | m | cls].
  - exact HN.
  - apply HB.
  - apply HI.
  - apply HF.
  - apply HS.
  - apply HL. induction l as [ | x l IHl]; constructor; [apply IH | exact IHl].
  - apply HD. induction m as [ | [k x] m IHm]; constructor; [apply IH | exact IHm].
  - apply HO.
Qed.

(** [json.dumps] returns a text exactly for the values every part of
    which the encoder has a rule for. *)
Lemma first_opaque_serializable v :
  first_opaque v = None <-> serializable v = true.
Proof.
  induction v as [ | b | z | f | s | l IH | m IH | cls] using value_induction;
    cbn [first_opaque serializable]; try tauto.
  - induction IH as [ | x l Hx _ IHl]; cbn [forallb]; [tauto | ].
    rewrite andb_true_iff, <- Hx, <- IHl.
    destruct (first_opaque x); [ | tauto].
    split; [discriminate | intros [H _]; discriminate].
  - induction IH as [ | [k x] l Hx _ IHl]; cbn [forallb snd] in *; [tauto | ].
    rewrite andb_true_iff, <- Hx, <- IHl.
    destruct (first_opaque x); [ | tauto].
    split; [discriminate | intros [H _]; discriminate].
  - split; discriminate.
Qed.

Lemma dumps_returns v text :
  dumps v = Returns text -> serializable v = true /\ text = encode 0 v.
Proof.
  unfold dumps. destruct (first_opaque v) eqn:H; [discriminate | ].
  intros E. inversion E. split; [ | reflexivity].
  apply first_opaque_serializable. exact H.
Qed.

Lemma encode_list lvl x xs :
  encode lvl (VList (x :: xs)) =
    "[" ++ newline_indent (S lvl) ++ encode (S lvl) x ++ encode_more_items lvl xs.
Proof.
  cbn [encode]. do 3 f_equal.
  induction xs as [ | y ys IH]; cbn [encode_more_items]; [reflexivity | ].
  rewrite IH. reflexivity.
Qed.

Lemma encode_dict lvl k x ms :
  encode lvl (VDict ((k, x) :: ms)) =
    "{" ++ newline_indent (S lvl) ++ encode_str k ++ ": " ++ encode (S lvl) x ++
    encode_more_members lvl ms.
Proof.
  cbn [encode]. do 5 f_equal.
  induction ms as [ | [k' y] ys IH]; cbn [encode_more_members]; [reflexivity | ].
  rewrite IH. reflexivity.
Qed.

Lemma stops_more_items lvl xs r : stops (encode_more_items lvl xs ++ r) = true.
Proof. destruct xs; reflexivity. Qed.

Lemma stops_more_members lvl ms r : stops (encode_more_members lvl ms ++ r) = true.
Proof. destruct ms as [ | [k y] ms]; reflexivity. Qed.

Lemma parse_elements_encode xs :
  Forall reads_back xs ->
  forallb serializable xs = true -> forallb finite xs = true ->
  forall x, reads_back x -> serializable x = true -> finite x = true ->
  forall lvl rest fuel,
    S (size x) + list_sum (map (fun y => S (size y)) xs) <= fuel ->
    parse_elements fuel (encode (S lvl) x ++ encode_more_items lvl xs ++ rest)
    = Some rest.
Proof.
  induction 1 as [ | y ys Hy _ IH]; intros Hser Hfin x Hx Hsx Hfx lvl rest fuel Hfuel.
  - destruct fuel as [ | fuel]; [lia | ]. cbn [parse_elements].
    rewrite (Hx Hsx Hfx (S lvl) _ fuel (stops_more_items lvl [] rest));
      [ | cbn in Hfuel; lia].
    cbn [encode_more_items]. rewrite append_assoc.
    rewrite skip_ws_newline_indent. reflexivity.
  - cbn [forallb] in Hser, Hfin.
    apply andb_prop in Hser. destruct Hser as [Hsy Hser].
    apply andb_prop in Hfin. destruct Hfin as [Hfy Hfin].
    cbn [map list_sum fold_right] in Hfuel.
    destruct fuel as [ | fuel]; [lia | ]. cbn [parse_elements].
    rewrite (Hx Hsx Hfx (S lvl) _ fuel (stops_more_items lvl (y :: ys) rest));
      [ | lia].
    cbn [encode_more_items]. cbn [append].
    rewrite skip_ws_other by reflexivity.
    cbn [code N_of_ascii N.eqb]. 
    rewrite !append_assoc. rewrite skip_ws_newline_indent.
    rewrite skip_ws_encode by assumption.
    apply IH; auto. unfold list_sum. lia.
Qed.

Lemma skip_ws_encode_str k r : skip_ws (encode_str k ++ r) = encode_str k ++ r.
Proof. unfold encode_str. cbn [append]. apply skip_ws_other. reflexivity. Qed.

Lemma parse_members_encode ms :
  Forall (fun kv => reads_back (snd kv)) ms ->
  forallb (fun kv => serializable (snd kv)) ms = true ->
  forallb (fun kv => finite (snd kv)) ms = true ->
  forall k x, reads_back x -> serializable x = true -> finite x = true ->
  forall lvl rest fuel,
    S (size x) + list_sum (map (fun kv => S (size (snd kv))) ms) <= fuel ->
    parse_members fuel
      (encode_str k ++ ": " ++ encode (S lvl) x ++ encode_more_members lvl ms ++ rest)
    = Some rest.
Proof.
  induction 1 as [ | [k' y] ys Hy _ IH];
    intros Hser Hfin k x Hx Hsx Hfx lvl rest fuel Hfuel.
  - destruct fuel as [ | fuel]; [lia | ].
    unfold encode_str. cbn [append parse_members].
    change (code dquote =? 34)%N with true. cbv iota.
    rewrite append_assoc. cbn [append]. rewrite parse_escape_chars.
    cbn [append]. rewrite skip_ws_other by reflexivity.
    change (code ":" =? 58)%N with true. cbv iota.
    replace (skip_ws (String " " (encode (S lvl) x ++ encode_more_members lvl [] ++ rest)))
      with (encode (S lvl) x ++ encode_more_members lvl [] ++ rest)
      by (symmetry; apply (skip_ws_encode (S lvl) x); assumption).
    rewrite (Hx Hsx Hfx (S lvl) _ fuel (stops_more_members lvl [] rest));
      [ | cbn in Hfuel; lia].
    cbn [encode_more_members]. rewrite append_assoc.
    rewrite skip_ws_newline_indent. reflexivity.
  - cbn [forallb snd] in Hser, Hfin. cbn [snd] in Hy.
    apply andb_prop in Hser. destruct Hser as [Hsy Hser].
    apply andb_prop in Hfin. destruct Hfin as [Hfy Hfin].
    cbn [map list_sum fold_right snd] in Hfuel.
    destruct fuel as [ | fuel]; [lia | ].
    unfold encode_str at 1. cbn [append parse_members].
    change (code dquote =? 34)%N with true. cbv iota.
    rewrite append_assoc. cbn [append]. rewrite parse_escape_chars.
    cbn [append]. rewrite skip_ws_other by reflexivity.
    change (code ":" =? 58)%N with true. cbv iota.
    replace (skip_ws (String " " (encode (S lvl) x ++
                                  encode_more_members lvl ((k', y) :: ys) ++ rest)))
      with (encode (S lvl) x ++ encode_more_members lvl ((k', y) :: ys) ++ rest)
      by (symmetry; apply (skip_ws_encode (S lvl) x); assumption).
    rewrite (Hx Hsx Hfx (S lvl) _ fuel (stops_more_members lvl ((k', y) :: ys) rest));
      [ | lia].
    cbn [encode_more_members]. cbn [append].
    rewrite skip_ws_other by reflexivity.
    change (code "," =? 44)%N with true. cbv iota.
    rewrite !append_assoc. rewrite skip_ws_newline_indent.
    cbn [append]. rewrite !append_assoc. rewrite skip_ws_encode_str.
    apply (IH Hser Hfin k' y Hy Hsy Hfy lvl rest fuel). unfold list_sum. lia.
Qed.

Lemma parse_value_number fuel c s :
  starts_number c ->
  parse_value (S fuel) (String c s) = parse_number (String c s).
Proof.
  intros Hc. cbn [parse_value].
  assert (H : (code c =? 91)%N = false /\ (code c =? 123)%N = false /\
              (code c =? 34)%N = false /\ (code c =? 116)%N = false /\
              (code c =? 102)%N = false /\ (code c =? 110)%N = false).
  { destruct Hc as [Hd | Hm].
    - unfold is_digit in Hd. apply andb_prop in Hd. destruct Hd as [Hlo Hhi].
      apply N.leb_le in Hlo. apply N.leb_le in Hhi.
      repeat split; apply N.eqb_neq; lia.
    - apply N.eqb_eq in Hm. rewrite Hm. repeat split; reflexivity. }
  destruct H as (H1 & H2 & H3 & H4 & H5 & H6).
  cbv zeta. rewrite H1, H2, H3, H4, H5, H6. reflexivity.
Qed.

(** The recogniser reads the text of every value that has an encoding
    and holds no NaN and no infinity, and stops right after it. *)
Theorem encode_reads_back v : reads_back v.
Proof.
  induction v as [ | b | z | f | s | l IH | m IH | cls] using value_induction;
    intros Hser Hfin lvl rest fuel Hstop Hfuel;
    (destruct fuel as [ | fuel]; [cbn in Hfuel; lia | ]).
  - reflexivity.
  - destruct b; reflexivity.
  - cbn [encode].
    destruct (str_of_Z_head z) as (c & s & Hs & Hc).
    pose proof (parse_number_int z rest Hstop) as Hp.
    rewrite Hs in *. cbn [append] in *.
    rewrite (parse_value_number fuel c _ Hc). exact Hp.
  - cbn [encode].
    destruct (float_str_head f (finite_float f Hfin)) as (c & s & Hs & Hc).
    pose proof (parse_number_float f rest (finite_float f Hfin) Hstop) as Hp.
    rewrite Hs in *. cbn [append] in *.
    rewrite (parse_value_number fuel c _ Hc). exact Hp.
  - cbn [encode]. unfold encode_str. cbn [append parse_value].
    change (code dquote) with 34%N. cbn [N.eqb Pos.eqb]. cbv zeta.
    rewrite append_assoc. cbn [append]. apply parse_escape_chars.
  - destruct l as [ | x xs]; [reflexivity | ].
    rewrite encode_list. cbn [append parse_value].
    change (code "[") with 91%N. cbn [N.eqb Pos.eqb]. cbv zeta.
    rewrite !append_assoc. rewrite skip_ws_newline_indent.
    cbn [serializable finite forallb] in Hser, Hfin.
    apply andb_prop in Hser. destruct Hser as [Hsx Hser].
    apply andb_prop in Hfin. destruct Hfin as [Hfx Hfin].
    inversion IH as [ | ? ? Hx Hxs]; subst.
    rewrite skip_ws_encode by assumption.
    pose proof (parse_elements_encode xs Hxs Hser Hfin x Hx Hsx Hfx lvl rest fuel)
      as Hp.
    destruct (encode_head (S lvl) x Hsx Hfx) as (c & s & He & _ & H93).
    rewrite He in *. cbn [append] in *. rewrite H93. apply Hp.
    cbn [size map list_sum fold_right] in Hfuel. unfold list_sum. lia.
  - destruct m as [ | [k x] ms]; [reflexivity | ].
    rewrite encode_dict. cbn [append parse_value].
    change (code "{") with 123%N. cbn [N.eqb Pos.eqb]. cbv zeta.
    rewrite !append_assoc. rewrite skip_ws_newline_indent.
    cbn [serializable finite forallb snd] in Hser, Hfin.
    apply andb_prop in Hser. destruct Hser as [Hsx Hser].
    apply andb_prop in Hfin. destruct Hfin as [Hfx Hfin].
    inversion IH as [ | ? ? Hx Hxs]; subst. cbn [snd] in Hx.
    cbn [append]. rewrite !append_assoc. rewrite skip_ws_encode_str.
    change (parse_members fuel
              (encode_str k ++ ": " ++ encode (S lvl) x ++
               encode_more_members lvl ms ++ rest) = Some rest).
    apply (parse_members_encode ms Hxs Hser Hfin k x Hx Hsx Hfx lvl rest fuel).
    cbn [size map list_sum fold_right snd] in Hfuel. unfold list_sum. lia.
  - discriminate.
Qed.

(** *** Fuel: the length of the text is enough *)

Lemma more_items_length lvl xs :
  Forall (fun x => forall lvl', serializable x = true -> finite x = true ->
                                size x <= String.length (encode lvl' x)) xs ->
  forallb serializable xs = true -> forallb finite xs = true ->
  S (list_sum (map (fun y => S (size y)) xs))
  <= String.length (encode_more_items lvl xs).
Proof.
  induction 1 as [ | y ys Hy _ IH]; intros Hser Hfin.
  - cbn [encode_more_items map list_sum fold_right]. rewrite length_append.
    cbn. lia.
  - cbn [forallb] in Hser, Hfin.
    apply andb_prop in Hser. destruct Hser as [Hsy Hser].
    apply andb_prop in Hfin. destruct Hfin as [Hfy Hfin].
    cbn [encode_more_items map list_sum fold_right].
    rewrite !length_append. cbn [String.length].
    specialize (IH Hser Hfin). specialize (Hy (S lvl) Hsy Hfy).
    unfold list_sum in IH. lia.
Qed.

Lemma more_members_length lvl ms :
  Forall (fun kv => forall lvl', serializable (snd kv) = true ->
                                 finite (snd kv) = true ->
                                 size (snd kv) <= String.length (encode lvl' (snd kv))) ms ->
  forallb (fun kv => serializable (snd kv)) ms = true ->
  forallb (fun kv => finite (snd kv)) ms = true ->
  S (list_sum (map (fun kv => S (size (snd kv))) ms))
  <= String.length (encode_more_members lvl ms).
Proof.
  induction 1 as [ | [k y] ys Hy _ IH]; intros Hser Hfin.
  - cbn [encode_more_members map list_sum fold_right]. rewrite length_append.
    cbn. lia.
  - cbn [forallb snd] in Hser, Hfin. cbn [snd] in Hy.
    apply andb_prop in Hser. destruct Hser as [Hsy Hser].
    apply andb_prop in Hfin. destruct Hfin as [Hfy Hfin].
    cbn [encode_more_members map list_sum fold_right snd].
    rewrite !length_append. cbn [String.length].
    specialize (IH Hser Hfin). specialize (Hy (S lvl) Hsy Hfy).
    unfold list_sum in IH. lia.
Qed.

Lemma size_le_length v :
  forall lvl, serializable v = true -> finite v = true ->
              size v <= String.length (encode lvl v).
Proof.
  induction v as [ | b | z | f | s | l IH | m IH | cls] using value_induction;
    intros lvl Hser Hfin;
    try (destruct (encode_head lvl _ Hser Hfin) as (c & r & He & _);
         rewrite He; cbn; lia).
  - destruct l as [ | x xs]; [cbn; lia | ].
    rewrite encode_list. cbn [serializable finite forallb] in Hser, Hfin.
    apply andb_prop in Hser. destruct Hser as [Hsx Hser].
    apply andb_prop in Hfin. destruct Hfin as [Hfx Hfin].
    inversion IH as [ | ? ? Hx Hxs]; subst.
    pose proof (more_items_length lvl xs Hxs Hser Hfin) as Hm.
    specialize (Hx (S lvl) Hsx Hfx).
    rewrite !length_append. cbn [String.length size map list_sum fold_right].
    unfold list_sum in Hm. lia.
  - destruct m as [ | [k x] ms]; [cbn; lia | ].
    rewrite encode_dict. cbn [serializable finite forallb snd] in Hser, Hfin.
    apply andb_prop in Hser. destruct Hser as [Hsx Hser].
    apply andb_prop in Hfin. destruct Hfin as [Hfx Hfin].
    inversion IH as [ | ? ? Hx Hxs]; subst. cbn [snd] in Hx.
    pose proof (more_members_length lvl ms Hxs Hser Hfin) as Hm.
    specialize (Hx (S lvl) Hsx Hfx).
    rewrite !length_append. cbn [String.length size map list_sum fold_right snd].
    unfold list_sum in Hm. lia.
Qed.

(** The text [json.dumps] returns for a value without NaN and infinities
    is JSON, and stays so with the line break [print] puts after it. *)
Theorem dumps_is_json v text :
  dumps v = Returns text -> finite v = true ->
  is_json text = true /\ is_json (text ++ newline) = true.
Proof.
  intros H Hfin. apply dumps_returns in H. destruct H as [Hser ->].
  pose proof (size_le_length v 0 Hser Hfin) as Hsize.
  split; unfold is_json.
  - rewrite <- (append_empty_r (encode 0 v)) at 2.
    rewrite skip_ws_encode by assumption.
    rewrite (encode_reads_back v Hser Hfin 0 EmptyString _ eq_refl Hsize).
    reflexivity.
  - rewrite skip_ws_encode by assumption.
    rewrite (encode_reads_back v Hser Hfin 0 newline); [reflexivity | reflexivity | ].
    rewrite length_append. lia.
Qed.

(** A list prints as an array. *)
Lemma dumps_list_is_array l text :
  dumps (VList l) = Returns text -> is_array_text text = true.
Proof.
  intros H. apply dumps_returns in H. destruct H as [_ ->].
  destruct l; reflexivity.
Qed.

End JsonFacts.

(* ===================================================================== *)
(** ** The lifecycle finalizer *)
(* ===================================================================== *)

(** C1.  In a run whose session was resolved with the origin flag set
    (the script attached to a running browser over CDP), no [close] call
    is issued at all, whatever the keep-open argument is. *)
Theorem existing_browser_never_closed w fuel path url hm ko t s :
  resolve_session w url hm = (t, Val s) ->
  s_is_existing s = true ->
  existsb is_close (calls_of (fst (run_scan w fuel path url hm ko))) = false.
Proof.
  intros Hres Hflag. apply not_close_calls.
  change (always not_close (run_scan w fuel path url hm ko)).
  unfold run_scan.
  apply always_bind; [always_walk ltac:(exact I) | intros _ _].
  apply always_bind; [always_walk ltac:(exact I) | intros _ _].
  apply always_try_except_all; [ | always_clauses; always_walk ltac:(exact I)].
  apply always_bind; [always_walk ltac:(exact I) | intros js _].
  apply always_with_playwright; [exact I | exact I | ].
  apply always_bind; [apply resolve_session_not_close | ].
  rewrite Hres. cbn [snd]. intros a Ha. inversion Ha; subst a.
  apply always_bind; [apply scan_not_close | intros _ _].
  rewrite (finalize_existing w fuel ko s Hflag). repeat constructor.
Qed.

Lemma existing_browser_never_closed_witness :
  existsb is_close
    (calls_of (fst (run_scan (attached_world [[sample_page]]) 3
                             "scanner.js" "" "false" "false"))) = false.
Proof.
  eapply (existing_browser_never_closed (attached_world [[sample_page]]) 3
            "scanner.js" "" "false" "false" _
            (MkSession AttachedBrowser sample_page true));
    reflexivity.
Defined.

(** X17.  Whatever the run, the handle of the attached browser is never
    the target of a [close] call, also when the attach was followed by a
    failure and a browser was launched in its place. *)
Lemma attached_handle_never_closed w fuel path url hm ko :
  ~ In (Call (Close AttachedBrowser)) (fst (run_scan w fuel path url hm ko)).
Proof.
  set (P := fun ev => ev <> Call (Close AttachedBrowser)).
  assert (H : always P (run_scan w fuel path url hm ko)).
  { unfold run_scan.
    apply always_bind; [always_walk ltac:(subst P; cbn; discriminate) | intros _ _].
    apply always_bind; [always_walk ltac:(subst P; cbn; discriminate) | intros _ _].
    apply always_try_except_all;
      [ | always_clauses; always_walk ltac:(subst P; cbn; discriminate)].
    apply always_bind; [always_walk ltac:(subst P; cbn; discriminate) | intros js _].
    apply always_with_playwright; [subst P; cbn; discriminate .. | ].
    apply always_bind.
    { unfold resolve_session, attach_existing, launch_new.
      always_walk ltac:(subst P; cbn; discriminate). }
    intros s Hs.
    apply always_bind.
    { unfold scan, print_json, py_len. always_walk ltac:(subst P; cbn; discriminate). }
    intros _ _.
    destruct (resolve_session w url hm) as [t r] eqn:Hres. cbn in Hs. subst r.
    apply resolve_session_val in Hres. unfold finalize.
    destruct Hres as [[Hb Hf] | [Hb Hf]]; rewrite Hf, ?Hb;
      always_walk ltac:(subst P; cbn; discriminate). }
  unfold always in H. rewrite Forall_forall in H.
  intros Hin. apply (H _ Hin). reflexivity.
Qed.

(** C2.  When nothing answers on the debugging port and the keep-open
    argument does not read as true, a run that ends normally has called
    [close] on the launched browser, the call has returned, and it is the
    last thing done before Playwright is stopped and the script ends. *)
Theorem fresh_browser_closed_before_exit w fuel path url hm ko e :
  w_connect_over_cdp w endpoint = Raises e ->
  is_Exception e = true ->
  String.eqb (lower ko) "true" = false ->
  snd (run_scan w fuel path url hm ko) = Val tt ->
  w_close w LaunchedBrowser = Returns tt /\
  exists before,
    fst (run_scan w fuel path url hm ko) =
      (before ++ [Call (Close LaunchedBrowser);
                  Stderr "[SCANNER] Browser closed";
                  Call StopPlaywright])%list /\
    existsb is_close (calls_of before) = false.
Proof.
  intros Hconn Hexc Hkeep Hend.
  pose proof (surjective_M (run_scan w fuel path url hm ko)) as Hrun.
  rewrite Hend in Hrun. revert Hrun.
  generalize (fst (run_scan w fuel path url hm ko)) as tr. intros tr Hrun.
  unfold run_scan in Hrun. invert_run.
  apply try_except_inv_val in Hrun.
  destruct Hrun as [Hrun | (ta & e' & tb & _ & Hsel & _)].
  2:{ cbn in Hsel. destruct (is_Exception e'); discriminate. }
  invert_run. apply with_playwright_inv_val in Hrun.
  destruct Hrun as (Hstart & tb & Hbody & ->).
  invert_run.
  match goal with
  | Hres : resolve_session _ _ _ = (?tres, Val ?s),
    Hscan : scan _ ?pg ?js = (?tscan, Val _),
    Hfin : finalize _ _ _ _ = (?tfin, Val tt) |- _ =>
      assert (Hs : s_browser s = LaunchedBrowser /\ s_is_existing s = false);
      [ | destruct Hs as [Hb Hf];
          pose proof (resolve_session_not_close w url hm) as Hq1;
          pose proof (scan_not_close w pg js) as Hq2;
          unfold always in Hq1, Hq2; rewrite Hres in Hq1; rewrite Hscan in Hq2;
          cbn [fst] in Hq1, Hq2;
          unfold finalize in Hfin; rewrite Hf, Hb, Hkeep in Hfin ]
  end.
  { match goal with Hres : resolve_session _ _ _ = _ |- _ =>
      rewrite (resolve_session_refused w url hm e Hconn Hexc) in Hres;
      inversion Hres as [[Ht Hl]]
    end.
    pose proof (surjective_M (launch_new w url hm e)) as Hp.
    rewrite Hl in Hp. apply launch_new_val in Hp. tauto. }
  invert_run. split; [assumption | ].
  match goal with
  | Hres : resolve_session _ _ _ = (?t, _), Hscan : scan _ _ _ = (?t1, _) |- _ =>
    exists (preamble path url hm ko ++ t ++ t1 ++
            [Stderr "[SCANNER] Browser lifecycle - is_existing: False, keep_open: False";
             Stderr "[SCANNER] Keep Open disabled - closing browser..."])%list
  end.
  split.
  - unfold preamble. simpl. rewrite <- !app_assoc. reflexivity.
  - rewrite !calls_of_app, !existsb_app.
    rewrite (not_close_calls _ Hq1), (not_close_calls _ Hq2). reflexivity.
Qed.

Lemma fresh_browser_closed_before_exit_witness :
  w_close fresh_world LaunchedBrowser = Returns tt /\
  exists before,
    fst (run_scan fresh_world 0 "scanner.js" "http://localhost:3000" "true" "false") =
      (before ++ [Call (Close LaunchedBrowser);
                  Stderr "[SCANNER] Browser closed";
                  Call StopPlaywright])%list /\
    existsb is_close (calls_of before) = false.
Proof.
  apply (fresh_browser_closed_before_exit fresh_world 0 "scanner.js"
           "http://localhost:3000" "true" "false" connection_refused);
    reflexivity.
Defined.

(** C3, as stated, fails: in this run nothing answers on the debugging
    port, the browser is to be kept open, and the first connectivity check
    raises an error.  The loop is left and the script ends normally, with
    the monitoring-error line on the diagnostic channel, although no poll
    answered that the browser is gone and nothing was interrupted. *)
Lemma polling_left_on_monitoring_error :
  let r := run_scan monitor_error_world 1 "scanner.js" "" "false" "true" in
  snd r = Val tt /\
  In "[SCANNER] Browser monitoring error: Target closed" (stderr_of (fst r)) /\
  ~ disconnect_or_interrupt monitor_error_world.
Proof.
  cbv zeta. split; [reflexivity | ]. split.
  - vm_compute. tauto.
  - intros (j & [H | (e & He & [H | H])]); cbn in H; try discriminate.
    inversion H; subst e. discriminate.
Qed.

(** C3, as stated, fails as well when the finalizer is not reached: a
    browser is launched and is to be kept open, every poll would answer
    that it is connected, and the navigation fails.  The run ends through
    the critical-error exit without a single poll. *)
Lemma failed_navigation_ends_run_unpolled :
  let w := with_polling
             (with_navigation fresh_world (Raises name_not_resolved) (Returns tt))
             (fun _ => Returns true) (fun _ => Returns tt) in
  let r := run_scan w 5 "scanner.js" "http://nowhere.invalid" "false" "true" in
  (forall j, w_is_connected w j = Returns true) /\
  exit_status (snd r) = Some 1%Z /\
  existsb is_poll (calls_of (fst r)) = false.
Proof. cbv zeta. split; [intros j; reflexivity | split; reflexivity]. Qed.

(** C3, amended.  The script file is read, Playwright is started, phase 1
    ends with a launched browser, the scan phase ends without letting an
    exception through, and the browser is to be kept open: the finalizer is
    reached.  Then the run does not end while the polls answer that the
    browser is connected and the sleeps return: after any number of rounds
    it is still going, each round being one poll and one sleep of one
    second.  It leaves the loop only at a round where the poll answers
    false, or the poll or the sleep raises (an interrupt or any other
    error). *)
Theorem keep_open_polls_while_connected w fuel path url hm ko js t s t' :
  w_read_file w path = Returns js ->
  w_start_playwright w = Returns tt ->
  resolve_session w url hm = (t, Val s) ->
  s_is_existing s = false ->
  scan w (s_page s) js = (t', Val tt) ->
  String.eqb (lower ko) "true" = true ->
  let r := run_scan w fuel path url hm ko in
  ((forall j, j < fuel ->
              w_is_connected w j = Returns true /\ w_sleep w j = Returns tt) ->
   snd r = Pending /\
   exists before,
     fst r = (before ++ rounds fuel LaunchedBrowser)%list /\
     existsb is_poll (calls_of before) = false) /\
  (snd r <> Pending ->
   exists j,
     j < fuel /\
     (forall k, k < j ->
                w_is_connected w k = Returns true /\ w_sleep w k = Returns tt) /\
     (w_is_connected w j = Returns false \/
      (exists e, w_is_connected w j = Raises e) \/
      (exists e, w_sleep w j = Raises e))).
Proof.
  intros Hread Hstart Hres Hflag Hscan Hkeep r. subst r.
  rewrite (run_scan_session w fuel path url hm ko js t s Hread Hstart Hres).
  cbv zeta. rewrite (bind_val _ _ _ _ Hscan).
  assert (Hb : s_browser s = LaunchedBrowser).
  { destruct (resolve_session_val w url hm t s Hres) as [[_ H] | [H _]];
      [congruence | exact H]. }
  split.
  - intros Hc.
    assert (Hp : poll w fuel LaunchedBrowser 0 = (rounds fuel LaunchedBrowser, Pending)).
    { apply poll_connected. intros j Hj. apply Hc. lia. }
    rewrite (finalize_keep_open w fuel ko s Hflag Hkeep). rewrite Hb.
    cbv zeta. rewrite (bind_pending _ _ _ Hp). cbn [try_except fst snd conclude].
    split; [reflexivity | ].
    exists (preamble path url hm ko ++ t ++ t' ++
            [Stderr "[SCANNER] Browser lifecycle - is_existing: False, keep_open: True";
             Stderr "[SCANNER] Browser launched. Keeping open for CDP access...";
             Stderr "[SCANNER] Browser will stay open until manually closed by user"])%list.
    split.
    + rewrite <- !app_assoc. reflexivity.
    + rewrite !calls_of_app, !existsb_app. cbn.
      pose proof (resolve_session_not_poll w url hm) as H1.
      pose proof (scan_not_poll w (s_page s) js) as H2.
      unfold always in H1, H2. rewrite Hres in H1. rewrite Hscan in H2.
      cbn [fst] in H1, H2.
      rewrite (not_poll_calls _ H1), (not_poll_calls _ H2). reflexivity.
  - intros Hnp.
    assert (Hp : snd (poll w fuel (s_browser s) 0) <> Pending).
    { intros Hp. apply Hnp.
      apply (finalize_pending_iff w fuel ko s Hflag Hkeep) in Hp.
      destruct (finalize w fuel ko s) as [tf rf]. cbn in Hp. subst rf.
      reflexivity. }
    destruct (poll_finished w fuel (s_browser s) 0 Hp) as (j & Hj & Hbefore & Hat).
    exists j. split; [lia | ]. split; [ | exact Hat].
    intros k Hk. apply Hbefore. lia.
Qed.

Lemma keep_open_polls_while_connected_witness :
  snd (run_scan fresh_world 2 "scanner.js" "" "false" "true") = Pending /\
  exists j,
    j < 5 /\
    (forall k, k < j ->
               w_is_connected fresh_world k = Returns true /\
               w_sleep fresh_world k = Returns tt) /\
    (w_is_connected fresh_world j = Returns false \/
     (exists e, w_is_connected fresh_world j = Raises e) \/
     (exists e, w_sleep fresh_world j = Raises e)).
Proof.
  split.
  - refine (proj1 (proj1
      (keep_open_polls_while_connected fresh_world 2 "scanner.js" "" "false"
         "true" "scanner" _ _ _ eq_refl eq_refl eq_refl eq_refl eq_refl eq_refl) _)).
    intros [ | [ | j]] Hj; [split; reflexivity .. | lia].
  - refine (proj2
      (keep_open_polls_while_connected fresh_world 5 "scanner.js" "" "false"
         "true" "scanner" _ _ _ eq_refl eq_refl eq_refl eq_refl eq_refl eq_refl) _).
    vm_compute. discriminate.
Defined.

(* ===================================================================== *)
(** ** The parent liveness monitor *)
(* ===================================================================== *)

(** C4.  The monitor ends the process in two ways and no other: when the
    read on standard input returns (the stream is at its end) it calls
    [os._exit(0)], when the read raises an [Exception] it calls
    [os._exit(1)]; both end the process on the spot, with no handler and
    no clean-up run. *)
Theorem parent_watchdog_exits w :
  (forall data, w_stdin_read w = Some (Returns data) ->
     parent_watchdog w = ([Call ReadStdin; Call (OsExit 0)], HardExit 0%Z)) /\
  (forall e, w_stdin_read w = Some (Raises e) -> is_Exception e = true ->
     parent_watchdog w = ([Call ReadStdin; Call (OsExit 1)], HardExit 1%Z)) /\
  (forall code, snd (parent_watchdog w) = HardExit code ->
     (code = 0%Z /\ exists data, w_stdin_read w = Some (Returns data)) \/
     (code = 1%Z /\ exists e, w_stdin_read w = Some (Raises e) /\
                             is_Exception e = true)).
Proof.
  unfold parent_watchdog.
  destruct (w_stdin_read w) as [[data | e] | ]; cbn.
  - split; [reflexivity | ]. split; [discriminate | ].
    intros code H. inversion H; subst.
    left. split; [reflexivity | ]. exists data. reflexivity.
  - split; [discriminate | ].
    destruct (is_Exception e) eqn:He; cbn.
    + split; [reflexivity | ].
      intros code H. inversion H; subst.
      right. split; [reflexivity | ]. exists e. auto.
    + split; [intros e' H; inversion H; subst; congruence | discriminate].
  - split; [discriminate | ]. split; discriminate.
Qed.

(* ===================================================================== *)
(** ** Failures *)
(* ===================================================================== *)

(** C5, as stated, fails: the scanner script cannot be read and the
    standard input of the process is at its end.  The watchdog, started
    before the script file is opened, gets its turns first: the process
    ends through [os._exit(0)], exit status 0, and the diagnostic channel
    has received the opening line only, no critical-error line. *)
Lemma parent_death_preempts_critical_error :
  let w := with_stdin missing_script_world end_of_stream in
  let p := process w [MainTurn; MainTurn; WatchdogTurn; WatchdogTurn]
             (run_scan w 0 "missing.js" "" "false" "true") in
  w_read_file w "missing.js" = Raises no_such_file /\
  fst p =
    [Stderr "[SCANNER] Starting scan - URL: , Headless: false, Keep Open: true";
     Call StartWatchdog; Call ReadStdin; Call (OsExit 0)] /\
  exit_status (snd p) = Some 0%Z /\
  stderr_of (fst p) =
    ["[SCANNER] Starting scan - URL: , Headless: false, Keep Open: true"].
Proof. cbv zeta. repeat split. Qed.

(** C5, amended.  When reading the scanner script raises an [Exception],
    the main flow logs the critical-error line after the opening line and
    ends through [sys.exit(1)], having called nothing but the start of the
    watchdog and the read of the file.  Whatever the turns of the two
    threads, the primary output channel receives nothing, and the process
    either ends as the main flow does, exit status 1 with the
    critical-error line written, or is ended by the watchdog through
    [os._exit] before that.  While the watchdog has no exit to make (its
    read blocks) it is the former. *)
Theorem unreadable_script_is_fatal w sch fuel path url hm ko e :
  w_read_file w path = Raises e ->
  is_Exception e = true ->
  let r := run_scan w fuel path url hm ko in
  let p := process w sch r in
  let lines :=
    ["[SCANNER] Starting scan - URL: " ++ url ++ ", Headless: " ++ hm ++
     ", Keep Open: " ++ ko;
     "CRITICAL ERROR: " ++ exc_str e] in
  (exit_status (snd r) = Some 1%Z /\
   stderr_of (fst r) = lines /\
   calls_of (fst r) = [StartWatchdog; ReadFile path]) /\
  stdout_of (fst p) = EmptyString /\
  ((exit_status (snd p) = Some 1%Z /\ stderr_of (fst p) = lines) \/
   (exists code, snd p = HardExit code /\
                 snd (parent_watchdog w) = HardExit code /\
                 leading_lines (stderr_of (fst p)) lines)) /\
  ((forall code, snd (parent_watchdog w) <> HardExit code) ->
   exit_status (snd p) = Some 1%Z /\ stderr_of (fst p) = lines).
Proof.
  intros Hread Hexc r p lines.
  assert (Hr : r = ([Stderr ("[SCANNER] Starting scan - URL: " ++ url ++
                             ", Headless: " ++ hm ++ ", Keep Open: " ++ ko);
                     Call StartWatchdog; Call (ReadFile path);
                     Stderr ("CRITICAL ERROR: " ++ exc_str e)],
                    Exc (MkExc (SystemExitClass 1) (str_of_Z 1)))).
  { subst r. unfold run_scan.
    rewrite bind_log. rewrite (bind_request_returns _ _ _ _ eq_refl). cbn [fst snd].
    rewrite (bind_request_raises _ _ _ _ Hread).
    unfold try_except. cbn. rewrite Hexc. reflexivity. }
  assert (Hmain : exit_status (snd r) = Some 1%Z /\ stderr_of (fst r) = lines /\
                  stdout_of (fst r) = EmptyString).
  { rewrite Hr. repeat split. }
  destruct Hmain as (Hstatus & Hlines & Hout).
  split; [rewrite Hr; repeat split | ].
  split.
  - destruct (process_cases w sch r) as [(_ & _ & Ho) | (code & _ & _ & _ & Ho)];
      fold p in Ho.
    + rewrite Ho. exact Hout.
    + rewrite Hout in Ho. apply leading_part_of_empty. exact Ho.
  - split.
    + destruct (process_cases w sch r) as [(Hs & He & _) | (code & Hs & Hw & He & _)];
        fold p in Hs, He.
      * left. rewrite Hs, He. auto.
      * right. exists code. rewrite <- Hlines. auto.
    + intros Hno.
      destruct (process_unwatched w sch r Hno) as (Hs & He & _). fold p in Hs, He.
      rewrite Hs, He. auto.
Qed.

Lemma unreadable_script_is_fatal_witness :
  let p := process missing_script_world [MainTurn; WatchdogTurn; MainTurn; WatchdogTurn]
             (run_scan missing_script_world 0 "missing.js" "" "false" "true") in
  exit_status (snd p) = Some 1%Z /\
  stderr_of (fst p) =
    ["[SCANNER] Starting scan - URL: , Headless: false, Keep Open: true";
     "CRITICAL ERROR: [Errno 2] No such file or directory"] /\
  stdout_of (fst p) = EmptyString.
Proof.
  destruct (unreadable_script_is_fatal missing_script_world
              [MainTurn; WatchdogTurn; MainTurn; WatchdogTurn]
              0 "missing.js" "" "false" "true" no_such_file eq_refl eq_refl)
    as (_ & Hout & _ & Hfree).
  destruct Hfree as [Hs He]; [intros code; discriminate | ].
  split; [exact Hs | ]. split; [exact He | exact Hout].
Defined.






(* ===================================================================== *)
(** ** The session resolver *)
(* ===================================================================== *)

(** C8.  After a successful attach, the session takes the first page of
    the first context when there is one; when the browser has no context,
    or its first context has no page, a page is opened in the attached
    browser and the session takes that one.  Either way the scan is made
    on the page of the session. *)
Theorem attach_page_selection w fuel path url hm ko js :
  w_read_file w path = Returns js ->
  w_start_playwright w = Returns tt ->
  w_connect_over_cdp w endpoint = Returns tt ->
  (forall pg pgs ctxs,
     w_contexts w = (pg :: pgs) :: ctxs ->
     snd (resolve_session w url hm) = Val (MkSession AttachedBrowser pg true) /\
     ~ In (Call (NewPage AttachedBrowser)) (fst (run_scan w fuel path url hm ko)) /\
     scans_page (fst (run_scan w fuel path url hm ko)) pg js) /\
  (forall pg,
     w_contexts w = [] \/ (exists ctxs, w_contexts w = [] :: ctxs) ->
     w_new_page w AttachedBrowser = Returns pg ->
     snd (resolve_session w url hm) = Val (MkSession AttachedBrowser pg true) /\
     In (Call (NewPage AttachedBrowser)) (fst (resolve_session w url hm)) /\
     scans_page (fst (run_scan w fuel path url hm ko)) pg js).
Proof.
  intros Hread Hstart Hconn. split.
  - intros pg pgs ctxs Hctx.
    pose proof (attach_reuses_first_page w url hm pg pgs ctxs Hconn Hctx) as Hres.
    split; [rewrite Hres; reflexivity | ].
    split; [ | exact (run_scan_scans_session_page w fuel path url hm ko js _ _
                        Hread Hstart Hres)].
    rewrite (run_scan_session w fuel path url hm ko js _ _ Hread Hstart Hres).
    cbv zeta. cbn [fst].
    set (P := fun ev => ev <> Call (NewPage AttachedBrowser)).
    assert (H : Forall P
                  (fst (conclude (scan w pg js;; finalize w fuel ko
                                    (MkSession AttachedBrowser pg true))))).
    { apply conclude_always; [subst P; cbn; discriminate .. | ].
      apply always_bind; [ | intros _ _]; unfold always.
      - eapply Forall_impl; [ | apply scan_events].
        intros [[] | | ]; subst P; cbn; (tauto || discriminate).
      - eapply Forall_impl; [ | apply finalize_events].
        intros [[] | | ]; subst P; cbn; (tauto || discriminate). }
    rewrite Forall_forall in H.
    intros Hin. apply in_app_or in Hin. destruct Hin as [Hin | Hin].
    { cbn in Hin. intuition discriminate. }
    apply in_app_or in Hin. destruct Hin as [Hin | Hin].
    { cbn in Hin. intuition discriminate. }
    exact (H _ Hin eq_refl).
  - intros pg Hctx Hnew.
    pose proof (attach_opens_page w url hm pg Hconn Hctx Hnew) as Hres.
    split; [rewrite Hres; reflexivity | ].
    split; [rewrite Hres; cbn; tauto | ].
    exact (run_scan_scans_session_page w fuel path url hm ko js _ _
             Hread Hstart Hres).
Qed.

Lemma attach_page_selection_witness :
  snd (resolve_session (attached_world []) "" "false") =
    Val (MkSession AttachedBrowser (MkPage 7 "about:blank") true) /\
  In (Call (NewPage AttachedBrowser))
     (fst (resolve_session (attached_world []) "" "false")) /\
  scans_page (fst (run_scan (attached_world []) 0 "scanner.js" "" "false" "true"))
             (MkPage 7 "about:blank") "scanner".
Proof.
  refine (proj2 (attach_page_selection (attached_world []) 0 "scanner.js" ""
                   "false" "true" "scanner" eq_refl eq_refl eq_refl)
                (MkPage 7 "about:blank") (or_introl eq_refl) eq_refl).
Defined.

(** C10, as stated, fails: a browser is launched, the navigation returns
    and the wait for network idleness is interrupted, which is no timeout.
    The bare [except] takes the interrupt as it takes everything: the
    time-out line is logged, the scan is made, the browser is closed and
    the run ends normally. *)
Lemma interrupted_wait_is_tolerated :
  let w := with_navigation fresh_world (Returns tt) (Raises interrupt) in
  let r := run_scan w 0 "scanner.js" "http://localhost:3000" "false" "false" in
  w_wait_for_load_state w sample_page = Raises interrupt /\
  is_KeyboardInterrupt interrupt = true /\
  snd r = Val tt /\
  In "[SCANNER] Page load timeout (continuing anyway)" (stderr_of (fst r)) /\
  In (Evaluate sample_page scan_entry_point) (calls_of (fst r)) /\
  In (Close LaunchedBrowser) (calls_of (fst r)).
Proof. cbv zeta. vm_compute. intuition. Qed.

(** C10, amended.  On the launch path with a target URL, whatever the
    wait for network idleness raises is tolerated, a timeout or not, and
    phase 1 ends with a session.  An [Exception] raised by the navigation
    call itself is not: it leaves the [with] block and reaches the outer
    handler.  The calls of the main flow then stop at [goto] (no
    [evaluate], no poll, no [close]), its last diagnostic line is the
    critical-error line and it ends through [sys.exit(1)].  Whatever the
    turns of the two threads, the process makes no [evaluate], poll or
    [close] call either and puts nothing on the primary output channel; it
    ends as the main flow does, exit status 1, unless the watchdog ends it
    first through [os._exit]. *)
Theorem navigation_failure_is_fatal w sch fuel path url hm ko js e0 pg :
  w_read_file w path = Returns js ->
  w_start_playwright w = Returns tt ->
  w_connect_over_cdp w endpoint = Raises e0 ->
  is_Exception e0 = true ->
  w_launch w (String.eqb (lower hm) "true")
           ["--remote-debugging-port=" ++ str_of_Z DEBUG_PORT] = Returns tt ->
  w_new_page w LaunchedBrowser = Returns pg ->
  url <> EmptyString ->
  (forall e,
     w_goto w pg url = Raises e ->
     is_Exception e = true ->
     let r := run_scan w fuel path url hm ko in
     let p := process w sch r in
     let lines :=
       ["[SCANNER] Starting scan - URL: " ++ url ++ ", Headless: " ++ hm ++
        ", Keep Open: " ++ ko;
        "[SCANNER] Attempting to connect to existing browser on port 9222...";
        "[SCANNER] No existing browser found (" ++ exc_str e0 ++
        "), launching new one...";
        "[SCANNER] Browser launched successfully";
        "[SCANNER] Navigating to " ++ url ++ "...";
        "CRITICAL ERROR: " ++ exc_str e] in
     (exit_status (snd r) = Some 1%Z /\
      calls_of (fst r) =
        [StartWatchdog; ReadFile path; StartPlaywright; ConnectOverCdp endpoint;
         Launch (String.eqb (lower hm) "true")
                ["--remote-debugging-port=" ++ str_of_Z DEBUG_PORT];
         NewPage LaunchedBrowser; Goto pg url; StopPlaywright] /\
      stderr_of (fst r) = lines /\
      stdout_of (fst r) = EmptyString) /\
     Forall (fun ev => not_evaluate ev /\ not_poll ev /\ not_close ev) (fst p) /\
     stdout_of (fst p) = EmptyString /\
     ((exit_status (snd p) = Some 1%Z /\ stderr_of (fst p) = lines) \/
      (exists code, snd p = HardExit code /\
                    snd (parent_watchdog w) = HardExit code /\
                    leading_lines (stderr_of (fst p)) lines)) /\
     ((forall code, snd (parent_watchdog w) <> HardExit code) ->
      exit_status (snd p) = Some 1%Z /\ stderr_of (fst p) = lines)) /\
  (forall e,
     w_goto w pg url = Returns tt ->
     w_wait_for_load_state w pg = Raises e ->
     snd (resolve_session w url hm) = Val (MkSession LaunchedBrowser pg false) /\
     In (Stderr "[SCANNER] Page load timeout (continuing anyway)")
        (fst (resolve_session w url hm))).
Proof.
  intros Hread Hstart Hconn He0 Hlaunch Hnew Hurl.
  assert (Hne : String.eqb url EmptyString = false).
  { apply String.eqb_neq. exact Hurl. }
  split.
  - intros e Hgoto He r p lines.
    assert (Hr : r =
      ([Stderr ("[SCANNER] Starting scan - URL: " ++ url ++ ", Headless: " ++ hm ++
                ", Keep Open: " ++ ko);
        Call StartWatchdog; Call (ReadFile path); Call StartPlaywright;
        Stderr "[SCANNER] Attempting to connect to existing browser on port 9222...";
        Call (ConnectOverCdp endpoint);
        Stderr ("[SCANNER] No existing browser found (" ++ exc_str e0 ++
                "), launching new one...");
        Call (Launch (String.eqb (lower hm) "true")
                     ["--remote-debugging-port=" ++ str_of_Z DEBUG_PORT]);
        Call (NewPage LaunchedBrowser);
        Stderr "[SCANNER] Browser launched successfully";
        Stderr ("[SCANNER] Navigating to " ++ url ++ "...");
        Call (Goto pg url); Call StopPlaywright;
        Stderr ("CRITICAL ERROR: " ++ exc_str e)],
       Exc (MkExc (SystemExitClass 1) (str_of_Z 1)))).
    { subst r. unfold run_scan.
      rewrite bind_log. rewrite (bind_request_returns _ _ _ _ eq_refl). cbn [fst snd].
      rewrite (bind_request_returns _ _ _ _ Hread).
      rewrite (with_playwright_started w _ Hstart).
      rewrite (resolve_session_refused w url hm e0 Hconn He0).
      unfold launch_new. rewrite bind_log.
      rewrite (bind_request_returns _ _ _ _ Hlaunch). cbn [fst snd].
      rewrite (bind_request_returns _ _ _ _ Hnew). cbn [fst snd].
      rewrite bind_log. rewrite Hne. rewrite bind_log.
      rewrite (bind_request_raises _ _ _ _ Hgoto). cbn. rewrite He. reflexivity. }
    assert (Hmain : exit_status (snd r) = Some 1%Z /\ stderr_of (fst r) = lines /\
                    stdout_of (fst r) = EmptyString).
    { rewrite Hr. repeat split. }
    destruct Hmain as (Hstatus & Hlines & Hout).
    split; [rewrite Hr; repeat split | ].
    split.
    { subst p. apply process_always; [ | repeat split ..].
      rewrite Hr. cbn [fst]. repeat constructor. }
    split.
    { destruct (process_cases w sch r) as [(_ & _ & Ho) | (code & _ & _ & _ & Ho)];
        fold p in Ho.
      - rewrite Ho. exact Hout.
      - rewrite Hout in Ho. apply leading_part_of_empty. exact Ho. }
    split.
    + destruct (process_cases w sch r) as [(Hs & Hl & _) | (code & Hs & Hw & Hl & _)];
        fold p in Hs, Hl.
      * left. rewrite Hs, Hl. auto.
      * right. exists code. rewrite <- Hlines. auto.
    + intros Hno.
      destruct (process_unwatched w sch r Hno) as (Hs & Hl & _). fold p in Hs, Hl.
      rewrite Hs, Hl. auto.
  - intros e Hgoto Hwait.
    rewrite (resolve_session_refused w url hm e0 Hconn He0).
    unfold launch_new. rewrite bind_log.
    rewrite (bind_request_returns _ _ _ _ Hlaunch). cbn [fst snd].
    rewrite (bind_request_returns _ _ _ _ Hnew). cbn [fst snd].
    rewrite bind_log. rewrite Hne. rewrite bind_log.
    rewrite (bind_request_returns _ _ _ _ Hgoto). cbn [fst snd].
    rewrite (bind_request_raises _ _ _ _ Hwait). cbn.
    split; [reflexivity | tauto].
Qed.

Lemma navigation_failure_is_fatal_witness :
  let w := with_navigation fresh_world (Raises name_not_resolved) (Returns tt) in
  let r := run_scan w 0 "scanner.js" "http://nowhere.invalid" "false" "true" in
  let p := process w [MainTurn; MainTurn; WatchdogTurn; WatchdogTurn] r in
  exit_status (snd r) = Some 1%Z /\
  calls_of (fst r) =
    [StartWatchdog; ReadFile "scanner.js"; StartPlaywright;
     ConnectOverCdp "http://localhost:9222";
     Launch false ["--remote-debugging-port=9222"];
     NewPage LaunchedBrowser; Goto sample_page "http://nowhere.invalid";
     StopPlaywright] /\
  exit_status (snd p) = Some 1%Z /\
  stderr_of (fst p) =
    ["[SCANNER] Starting scan - URL: http://nowhere.invalid, Headless: false, Keep Open: true";
     "[SCANNER] Attempting to connect to existing browser on port 9222...";
     "[SCANNER] No existing browser found (connect ECONNREFUSED), launching new one...";
     "[SCANNER] Browser launched successfully";
     "[SCANNER] Navigating to http://nowhere.invalid...";
     "CRITICAL ERROR: net::ERR_NAME_NOT_RESOLVED"] /\
  stdout_of (fst p) = EmptyString.
Proof.
  assert (Hurl : "http://nowhere.invalid" <> EmptyString) by discriminate.
  destruct (proj1 (navigation_failure_is_fatal
                     (with_navigation fresh_world (Raises name_not_resolved) (Returns tt))
                     [MainTurn; MainTurn; WatchdogTurn; WatchdogTurn]
                     0 "scanner.js" "http://nowhere.invalid" "false" "true" "scanner"
                     connection_refused sample_page
                     eq_refl eq_refl eq_refl eq_refl eq_refl eq_refl Hurl)
                  name_not_resolved eq_refl eq_refl)
    as ((Hstatus & Hcalls & _) & _ & Hout & _ & Hfree).
  destruct Hfree as [Hs Hl]; [intros code; discriminate | ].
  split; [exact Hstatus | ]. split; [exact Hcalls | ].
  split; [exact Hs | ]. split; [exact Hl | exact Hout].
Defined.

(* ===================================================================== *)
(** ** The scan output *)
(* ===================================================================== *)

(** C7, as stated, fails: the entry point returns one record with a NaN
    in it; the scan succeeds, the text is printed and flushed, and what the
    primary output channel has received is not JSON, since [json.dumps]
    writes NaN as a bare word. *)
Lemma nan_output_is_not_json :
  let w := with_evaluate fresh_world (returns_value nan_elements) in
  let tr := fst (run_scan w 0 "scanner.js" "" "false" "false") in
  snd (run_scan w 0 "scanner.js" "" "false" "false") = Val tt /\
  In "[SCANNER] Scan complete - found 1 elements" (stderr_of tr) /\
  stdout_of tr = Json.encode 0 nan_elements ++ newline /\
  JsonSyntax.is_json (stdout_of tr) = false.
Proof. vm_compute. intuition. Qed.

(** C7, amended.  A run that writes to the primary output channel has
    resolved a session, made its two [evaluate] calls on the page of the
    session, the injection and the entry point, and no other, and
    [json.dumps] has returned the [indent=2] text of the value the entry
    point returned.  What the channel receives comes from the [print] of
    that text and from the flush, which is the call right after a [print]
    that returns; nothing else in the run writes to the channel.  It is a
    leading part of the text and its line break, and all of it once the
    [print] and the flush have both returned.  The whole is JSON when the
    value holds no NaN and no infinity, and an array when the value is a
    list. *)
Theorem scan_output_is_the_dumps_text w fuel path url hm ko chunk :
  In (Stdout chunk) (fst (run_scan w fuel path url hm ko)) ->
  let tr := fst (run_scan w fuel path url hm ko) in
  exists js t s v text before after,
    w_read_file w path = Returns js /\
    resolve_session w url hm = (t, Val s) /\
    filter is_evaluate (calls_of tr) =
      [Evaluate (s_page s) js; Evaluate (s_page s) scan_entry_point] /\
    w_evaluate w 1 (s_page s) scan_entry_point = Returns v /\
    Json.dumps v = Returns text /\
    text = Json.encode 0 v /\
    tr = (before ++
          Stdout (take (passed_on (w_print w text)) (text ++ newline)) ::
          after)%list /\
    Forall not_stdout before /\
    match write_end (w_print w text) with
    | Returns _ =>
        exists chunk after',
          after = Call FlushStdout :: Stdout chunk :: after' /\
          Forall not_stdout after'
    | Raises _ => Forall not_stdout after
    end /\
    leading_part (stdout_of tr) (text ++ newline) /\
    (write_end (w_print w text) = Returns tt ->
     write_end (w_flush w) = Returns tt ->
     stdout_of tr = text ++ newline /\
     (finite v = true -> JsonSyntax.is_json (stdout_of tr) = true) /\
     (forall l, v = Json.VList l ->
                JsonSyntax.is_array_text (stdout_of tr) = true)).
Proof.
  intros Hout tr.
  destruct (run_scan_output w fuel path url hm ko chunk Hout)
    as (js & t & s & v0 & v & n & text & tail &
        Hread & Hres & H0 & H1 & Hl & Hd & Htr & Htail & Hteval).
  fold tr in Htr.
  pose proof (resolve_session_not_stdout w url hm) as Hq.
  unfold always in Hq. rewrite Hres in Hq. cbn [fst] in Hq.
  pose proof (resolve_session_not_evaluate w url hm) as Hqe.
  unfold always in Hqe. rewrite Hres in Hqe. cbn [fst] in Hqe.
  destruct (JsonFacts.dumps_returns v text Hd) as [_ Htext].
  set (before := (preamble path url hm ko ++ t ++
                  [Stderr "[SCANNER] Starting DOM scan...";
                   Call (Evaluate (s_page s) js);
                   Call (Evaluate (s_page s) scan_entry_point);
                   Stderr ("[SCANNER] Scan complete - found " ++ str_of_nat n ++
                           " elements")])%list).
  assert (Hbefore : Forall not_stdout before).
  { subst before. apply Forall_app_intro; [repeat constructor | ].
    apply Forall_app_intro; [exact Hq | repeat constructor]. }
  assert (Hsplit : tr = (before ++ fst (print_json w v) ++ tail)%list).
  { rewrite Htr. subst before. rewrite <- !app_assoc. reflexivity. }
  assert (Hstdout : stdout_of tr = stdout_of (fst (print_json w v))).
  { rewrite Hsplit. rewrite !stdout_of_app.
    rewrite (not_stdout_empty _ Hbefore), (not_stdout_empty _ Htail).
    cbn [append]. apply append_empty_r. }
  assert (Heval : filter is_evaluate (calls_of tr) =
                  [Evaluate (s_page s) js; Evaluate (s_page s) scan_entry_point]).
  { rewrite Htr. rewrite !calls_of_app, !filter_app.
    rewrite (not_evaluate_filter t Hqe), (not_evaluate_filter tail Hteval).
    assert (Hp : filter is_evaluate (calls_of (fst (print_json w v))) = []).
    { apply not_evaluate_filter. rewrite (print_json_printed w v text Hd).
      cbv zeta. destruct (write_end (w_print w text));
        [destruct (write_end (w_flush w)) | ]; repeat constructor. }
    rewrite Hp. reflexivity. }
  exists js, t, s, v, text, before.
  pose proof (print_json_leading w v text Hd) as Hlead.
  pose proof (print_json_whole w v text Hd) as Hwhole.
  rewrite <- Hstdout in Hlead, Hwhole.
  rewrite (print_json_printed w v text Hd) in Hsplit. cbv zeta in Hsplit.
  destruct (write_end (w_print w text)) as [[] | e] eqn:Hp.
  - match type of Hsplit with
    | _ = (_ ++ fst (match ?x with Returns _ => (_ :: _ :: [Stdout ?c1], _)
                                 | Raises _ => (_ :: _ :: [Stdout ?c2], _) end) ++ _)%list =>
        exists (Call FlushStdout ::
                Stdout (match x with Returns _ => c1 | Raises _ => c2 end) :: tail)
    end.
    repeat (split; [assumption || reflexivity | ]).
    split; [ | split; [ | split; [ | split]]].
    + rewrite Hsplit. destruct (write_end (w_flush w)); reflexivity.
    + exact Hbefore.
    + eexists. exists tail. split; [reflexivity | exact Htail].
    + exact Hlead.
    + intros _ Hf. destruct (Hwhole eq_refl Hf) as [Hw _].
      split; [exact Hw | ]. split.
      * intros Hfin. rewrite Hw.
        apply (JsonFacts.dumps_is_json v text Hd Hfin).
      * intros l ->. rewrite Hw, Htext. destruct l; reflexivity.
  - exists tail.
    repeat match goal with |- _ /\ _ => split end;
      try assumption; try reflexivity; intros Hcontra; discriminate.
Qed.

Lemma scan_output_is_the_dumps_text_witness :
  let tr := fst (run_scan fresh_world 0 "scanner.js" "" "false" "false") in
  let text := Json.encode 0 sample_elements in
  stdout_of tr = text ++ newline /\
  JsonSyntax.is_json (stdout_of tr) = true /\
  JsonSyntax.is_array_text (stdout_of tr) = true /\
  filter is_evaluate (calls_of tr) =
    [Evaluate sample_page "scanner"; Evaluate sample_page scan_entry_point].
Proof.
  assert (Hout : In (Stdout EmptyString)
                     (fst (run_scan fresh_world 0 "scanner.js" "" "false" "false")))
    by (vm_compute; tauto).
  destruct (scan_output_is_the_dumps_text fresh_world 0 "scanner.js" "" "false"
              "false" EmptyString Hout)
    as (js & t & s & v & text & before & after &
        Hread & Hres & Heval & H1 & Hd & Htext & _ & _ & _ & _ & Hwhole).
  inversion Hread; subst js. inversion Hres; subst t s.
  inversion H1; subst v. subst text.
  destruct (Hwhole eq_refl eq_refl) as (Hw & Hjson & Harray).
  split; [exact Hw | ]. split; [apply Hjson; reflexivity | ].
  split; [apply (Harray _ eq_refl) | exact Heval].
Defined.

(* ===================================================================== *)
(** ** Further properties of the script *)
(* ===================================================================== *)

(** A property of events holds all along a run when it holds of the
    fixed events of the frame and all along the three phases. *)
Lemma run_scan_always (P : event -> Prop) w fuel path url hm ko :
  P (Stderr ("[SCANNER] Starting scan - URL: " ++ url ++ ", Headless: " ++
             hm ++ ", Keep Open: " ++ ko)) ->
  P (Call StartWatchdog) -> P (Call (ReadFile path)) ->
  P (Call StartPlaywright) -> P (Call StopPlaywright) ->
  (forall e, P (Stderr ("CRITICAL ERROR: " ++ exc_str e))) ->
  always P (resolve_session w url hm) ->
  (forall pg js, always P (scan w pg js)) ->
  (forall t s, resolve_session w url hm = (t, Val s) ->
               always P (finalize w fuel ko s)) ->
  always P (run_scan w fuel path url hm ko).
Proof.
  intros H1 H2 H3 H4 H5 H6 Hres Hscan Hfin. unfold run_scan.
  apply always_bind; [apply always_log; exact H1 | intros _ _].
  apply always_bind; [apply always_request; exact H2 | intros _ _].
  apply always_try_except_all.
  - apply always_bind; [apply always_request; exact H3 | intros js _].
    apply always_with_playwright; [exact H4 | exact H5 | ].
    apply always_bind; [exact Hres | intros s Hs].
    apply always_bind; [apply Hscan | intros _ _].
    apply (Hfin (fst (resolve_session w url hm)) s).
    rewrite <- Hs. apply surjective_M.
  - always_clauses. apply always_bind; [apply always_log; apply H6 | intros _ _].
    apply always_raise.
Qed.

(** *** The [__main__] block *)

(** X1.  With the script path and the URL given, the optional third and
    fourth arguments set the headless and keep-open flags; left out, they
    are [false] and [true]. *)
Theorem main_arguments w fuel prog path url rest :
  main w fuel (prog :: path :: url :: rest) =
    run_scan w fuel path url (hd "false" rest) (hd "true" (tl rest)).
Proof. destruct rest as [ | h [ | k rest]]; reflexivity. Qed.

(** X2.  With fewer than two arguments the indexing of [sys.argv] raises
    before [run_scan] is entered: nothing is logged, no watchdog is started
    and the error is not turned into the critical-error exit. *)
Theorem main_missing_arguments w fuel argv :
  length argv < 3 ->
  main w fuel argv = ([], Exc index_error).
Proof.
  intros H. destruct argv as [ | a0 [ | a1 [ | a2 rest]]]; cbn in H; try lia;
    reflexivity.
Qed.

Lemma main_missing_arguments_witness :
  main fresh_world 0 ["runner.py"; "scanner.js"] = ([], Exc index_error).
Proof. apply (main_missing_arguments fresh_world 0). cbn. lia. Defined.

(** *** What a run never does *)

(** X3.  When the keep-open argument reads as true, whatever its case,
    no run calls [close], on either path. *)
Theorem keep_open_never_closes w fuel path url hm ko :
  String.eqb (lower ko) "true" = true ->
  existsb is_close (calls_of (fst (run_scan w fuel path url hm ko))) = false.
Proof.
  intros Hkeep. apply not_close_calls.
  apply run_scan_always; try (intros; exact I).
  - apply resolve_session_not_close.
  - apply scan_not_close.
  - intros t s _. unfold finalize. rewrite Hkeep.
    destruct (s_is_existing s); always_walk ltac:(exact I).
Qed.

Lemma keep_open_never_closes_witness :
  existsb is_close
    (calls_of (fst (run_scan fresh_world 7 "scanner.js" "" "false" "TRUE"))) = false.
Proof.
  apply (keep_open_never_closes fresh_world 7 "scanner.js" "" "false" "TRUE").
  reflexivity.
Defined.

(** X4.  Started with the two mandatory arguments only, the script never
    calls [close]: by default a launched browser is left running. *)
Theorem default_run_never_closes w fuel prog path url :
  existsb is_close (calls_of (fst (main w fuel [prog; path; url]))) = false.
Proof.
  change (main w fuel [prog; path; url])
    with (run_scan w fuel path url "false" "true").
  apply not_close_calls.
  apply run_scan_always; try (intros; exact I).
  - apply resolve_session_not_close.
  - apply scan_not_close.
  - intros t s _. unfold finalize.
    change (String.eqb (lower "true") "true") with true. cbv iota.
    destruct (s_is_existing s); always_walk ltac:(exact I).
Qed.

(** X5.  Every attempt to attach goes to port 9222 on the local host, and
    every launch passes that same port as the remote-debugging port, with
    the headless flag set exactly when the argument reads as true. *)
Theorem one_debug_port w fuel path url hm ko :
  Forall (uses_debug_port hm) (fst (run_scan w fuel path url hm ko)).
Proof.
  apply run_scan_always; try (intros; exact I).
  - unfold resolve_session, attach_existing, launch_new.
    always_walk ltac:(first [exact I | reflexivity | split; reflexivity]).
  - intros pg js. unfold scan, print_json, py_len. always_walk ltac:(exact I).
  - intros t s _. unfold finalize. always_walk ltac:(exact I).
Qed.

(** X6.  With an empty target URL no run navigates: neither [goto] nor
    the wait for network idleness is called. *)
Theorem no_navigation_without_url w fuel path hm ko :
  existsb is_navigation
    (calls_of (fst (run_scan w fuel path EmptyString hm ko))) = false.
Proof.
  assert (H : always not_navigation (run_scan w fuel path EmptyString hm ko)).
  { apply run_scan_always; try (intros; exact I).
    - unfold resolve_session, attach_existing, launch_new.
      change (String.eqb EmptyString EmptyString) with true. cbv iota.
      always_walk ltac:(exact I).
    - intros pg js. unfold scan, print_json, py_len. always_walk ltac:(exact I).
    - intros t s _. unfold finalize. always_walk ltac:(exact I). }
  unfold always in H. induction H as [ | [[] | l | x] tr Hx _ IH]; cbn in *;
    auto; contradiction.
Qed.

Lemma not_launch_nor_navigation_calls tr :
  Forall not_launch tr -> Forall not_navigation tr ->
  existsb (fun c => orb (is_launch c) (is_navigation c)) (calls_of tr) = false.
Proof.
  induction 1 as [ | [[] | l | x] tr Hx _ IH]; intros Hn;
    inversion Hn as [ | ? ? Hy Hn']; subst; cbn in *; auto; contradiction.
Qed.

Lemma attach_existing_calls w :
  always (fun ev => not_launch ev /\ not_navigation ev) (attach_existing w).
Proof. unfold attach_existing. always_walk ltac:(split; exact I). Qed.

(** X7.  A run whose session has the origin flag set has neither launched
    a browser nor navigated: an attached page is scanned as it is. *)
Theorem attached_session_is_used_as_is w fuel path url hm ko t s :
  resolve_session w url hm = (t, Val s) ->
  s_is_existing s = true ->
  existsb (fun c => orb (is_launch c) (is_navigation c))
          (calls_of (fst (run_scan w fuel path url hm ko))) = false.
Proof.
  intros Hres Hflag.
  assert (Ht : Forall (fun ev => not_launch ev /\ not_navigation ev) t).
  { unfold resolve_session in Hres. invert_run.
    apply try_except_inv_val in Hres.
    destruct Hres as [Hres | (ta & e & tb & _ & Hsel & _)].
    - pose proof (attach_existing_calls w) as H. unfold always in H.
      rewrite Hres in H. constructor; [split; exact I | exact H].
    - exfalso. cbn in Hsel. destruct (is_Exception e); [ | discriminate].
      inversion Hsel as [Hl]. apply launch_new_val in Hl.
      destruct Hl as (_ & Hl & _). congruence. }
  assert (H : always (fun ev => not_launch ev /\ not_navigation ev)
                     (run_scan w fuel path url hm ko)).
  { apply run_scan_always; try (intros; split; exact I).
    - unfold always. rewrite Hres. exact Ht.
    - intros pg js. unfold scan, print_json, py_len. always_walk ltac:(split; exact I).
    - intros t' s' _. unfold finalize. always_walk ltac:(split; exact I). }
  unfold always in H.
  apply not_launch_nor_navigation_calls;
    (eapply Forall_impl; [ | exact H]); intros ev [H1 H2]; assumption.
Qed.

Lemma attached_session_is_used_as_is_witness :
  existsb (fun c => orb (is_launch c) (is_navigation c))
    (calls_of (fst (run_scan (attached_world []) 0 "scanner.js"
                             "http://localhost:3000" "false" "false"))) = false.
Proof.
  eapply (attached_session_is_used_as_is (attached_world []) 0 "scanner.js"
            "http://localhost:3000" "false" "false" _
            (MkSession AttachedBrowser (MkPage 7 "about:blank") true));
    reflexivity.
Defined.

(** X8.  Every text a run prints on the diagnostic channel starts with
    the scanner prefix or with the critical-error prefix.  (The text of an
    exception is put into the line as it is: when it runs over several
    lines only the first one carries the prefix.) *)
Theorem diagnostics_are_prefixed w fuel path url hm ko :
  Forall diagnostic_line (fst (run_scan w fuel path url hm ko)).
Proof.
  apply run_scan_always;
    try (intros; first [exact I | left; reflexivity | right; reflexivity]).
  - unfold resolve_session, attach_existing, launch_new.
    always_walk ltac:(first [exact I | left; reflexivity]).
  - intros pg js. unfold scan, print_json, py_len.
    always_walk ltac:(first [exact I | left; reflexivity]).
  - intros t s _. unfold finalize.
    always_walk ltac:(first [exact I | left; reflexivity]).
Qed.

(** *** How a run ends *)

(** Results that are not an [os._exit]. *)
Lemma soft_bind {A B} (m : M A) (f : A -> M B) :
  soft (snd m) -> (forall a, soft (snd (f a))) -> soft (snd (bind m f)).
Proof.
  destruct m as [t [a | e | c | ]]; cbn; auto.
  intros _ H. specialize (H a). destruct (f a). exact H.
Qed.

Lemma soft_try_except {A} (body : M A) clauses :
  soft (snd body) ->
  Forall (fun clause => forall e, soft (snd (snd clause e))) clauses ->
  soft (snd (try_except body clauses)).
Proof.
  destruct body as [t [a | e | c | ]]; cbn; auto.
  intros _ H. induction H as [ | [takes handler] rest Hh _ IH]; cbn; auto.
  destruct (takes e); auto. specialize (Hh e). cbn in Hh.
  destruct (handler e). exact Hh.
Qed.

Lemma soft_request {A} c (o : outcome A) : soft (snd (request c o)).
Proof. destruct o; exact I. Qed.

Lemma soft_poll w fuel b i : soft (snd (poll w fuel b i)).
Proof.
  revert i. induction fuel as [ | fuel IH]; intros i; cbn [poll]; [exact I | ].
  apply soft_bind; [apply soft_request | intros [ | ]]; [ | exact I].
  apply soft_bind; [apply soft_request | intros _; apply IH].
Qed.

Lemma soft_lift {A} (o : outcome A) : soft (snd (lift o)).
Proof. destruct o; exact I. Qed.

Lemma soft_print text a : soft (snd (print_stdout text a)).
Proof. unfold print_stdout. destruct (write_end a); exact I. Qed.

Lemma soft_flush held a : soft (snd (flush_stdout held a)).
Proof. unfold flush_stdout. destruct (write_end a); exact I. Qed.

Ltac soft_clauses :=
  first [ apply Forall_nil
        | apply Forall_cons; [intros ?; cbn [snd] | soft_clauses] ].

Ltac soft_walk :=
  repeat first
    [ exact I
    | match goal with
      | |- soft (snd (request _ _)) => apply soft_request
      | |- soft (snd (lift _)) => apply soft_lift
      | |- soft (snd (print_stdout _ _)) => apply soft_print
      | |- soft (snd (flush_stdout _ _)) => apply soft_flush
      | |- soft (snd (poll _ _ _ _)) => apply soft_poll
      end
    | apply soft_bind; [ | intros ? ]
    | apply soft_try_except; [ | soft_clauses ]
    | match goal with
      | |- soft (snd (match ?x with _ => _ end)) => destruct x
      end ].

Lemma session_body_soft w fuel url hm ko js :
  soft (snd (s <- resolve_session w url hm;;
             scan w (s_page s) js;; finalize w fuel ko s)).
Proof.
  unfold resolve_session, attach_existing, launch_new, scan, print_json, py_len,
    finalize.
  soft_walk.
Qed.

Lemma critical_handler e :
  (log ("CRITICAL ERROR: " ++ exc_str e);; sys_exit 1 : M unit) =
    ([Stderr ("CRITICAL ERROR: " ++ exc_str e)],
     Exc (MkExc (SystemExitClass 1) (str_of_Z 1))).
Proof. reflexivity. Qed.

(** X10.  Once Playwright is started it is stopped on every way out of
    the block: in a run that has ended, by a value, by the critical-error
    exit or by an interrupt, stopping Playwright is the last call made. *)
Theorem playwright_always_stopped w fuel path url hm ko js :
  w_read_file w path = Returns js ->
  w_start_playwright w = Returns tt ->
  snd (run_scan w fuel path url hm ko) <> Pending ->
  exists before,
    calls_of (fst (run_scan w fuel path url hm ko)) =
      (before ++ [StopPlaywright])%list.
Proof.
  intros Hread Hstart. unfold run_scan.
  rewrite bind_log. rewrite (bind_request_returns _ _ _ _ eq_refl). cbn [fst snd].
  rewrite (bind_request_returns _ _ _ _ Hread).
  rewrite (with_playwright_started w _ Hstart).
  pose proof (session_body_soft w fuel url hm ko js) as Hsoft.
  destruct (s <- resolve_session w url hm;;
            scan w (s_page s) js;; finalize w fuel ko s) as [t [[] | e | c | ]];
    cbn [fst snd try_except select_clause]; rewrite ?critical_handler;
    intros Hend.
  - exists (StartWatchdog :: ReadFile path :: StartPlaywright :: calls_of t).
    cbn [calls_of app]. rewrite calls_of_app. reflexivity.
  - exists (StartWatchdog :: ReadFile path :: StartPlaywright :: calls_of t).
    destruct (is_Exception e);
      repeat first [rewrite calls_of_app | progress (cbn [fst calls_of app])];
      rewrite ?app_nil_r; reflexivity.
  - contradiction.
  - congruence.
Qed.

Lemma playwright_always_stopped_witness :
  exists before,
    calls_of (fst (run_scan (with_navigation fresh_world (Raises name_not_resolved)
                                             (Returns tt))
                            0 "scanner.js" "http://nowhere.invalid" "false" "true"))
    = (before ++ [StopPlaywright])%list.
Proof.
  apply (playwright_always_stopped
           (with_navigation fresh_world (Raises name_not_resolved) (Returns tt))
           0 "scanner.js" "http://nowhere.invalid" "false" "true" "scanner");
    [reflexivity | reflexivity | vm_compute; discriminate].
Defined.

(** *** The scan phase *)



(** *** The polling loop *)

Ltac list_norm :=
  repeat first [rewrite <- app_assoc | rewrite <- app_comm_cons | rewrite app_nil_l].

Section Polling.

Variable w : world.

(** The loop stops with the exception of the first poll or sleep that
    raises. *)
Lemma poll_raises fuel b i n e :
  (forall j, i <= j < i + n ->
             w_is_connected w j = Returns true /\ w_sleep w j = Returns tt) ->
  w_is_connected w (i + n) = Raises e \/
  (w_is_connected w (i + n) = Returns true /\ w_sleep w (i + n) = Raises e) ->
  n < fuel ->
  exists last,
    poll w fuel b i = ((rounds n b ++ last)%list, Exc e) /\
    (last = [Call (IsConnected b)] \/ last = round b).
Proof.
  revert i fuel. induction n as [ | n IH]; intros i fuel Hc Hr Hlt.
  - destruct fuel as [ | fuel]; [lia | ]. cbn [poll rounds app].
    rewrite Nat.add_0_r in Hr. destruct Hr as [Hr | [Hr Hs]].
    + rewrite (bind_request_raises _ _ _ _ Hr). eexists. split; [reflexivity | ].
      left. reflexivity.
    + rewrite (bind_request_returns _ _ _ _ Hr). cbn [fst snd].
      rewrite (bind_request_raises _ _ _ _ Hs). eexists. split; [reflexivity | ].
      right. reflexivity.
  - destruct fuel as [ | fuel]; [lia | ]. cbn [poll rounds].
    destruct (Hc i ltac:(lia)) as [Hi Hs].
    rewrite (bind_request_returns _ _ _ _ Hi). cbn [fst snd].
    rewrite (bind_request_returns _ _ _ _ Hs). cbn [fst snd].
    destruct (IH (S i) fuel) as (last & Hp & Hlast).
    + intros j Hj. apply Hc. lia.
    + replace (S i + n) with (i + S n) by lia. exact Hr.
    + lia.
    + exists last. rewrite Hp. split; [reflexivity | exact Hlast].
Qed.

(** X13.  With a launched browser kept open, the run ends as soon as a
    poll answers that the browser is gone: after [n] rounds of poll and
    one-second sleep the next poll ends the loop, the closing line is
    logged, Playwright is stopped and the script ends normally, without a
    [close] call.  Any fuel above [n] gives this result. *)
Theorem run_ends_when_browser_disconnects fuel path url hm ko js t s t' n :
  w_read_file w path = Returns js ->
  w_start_playwright w = Returns tt ->
  resolve_session w url hm = (t, Val s) ->
  s_is_existing s = false ->
  scan w (s_page s) js = (t', Val tt) ->
  String.eqb (lower ko) "true" = true ->
  (forall j, j < n ->
             w_is_connected w j = Returns true /\ w_sleep w j = Returns tt) ->
  w_is_connected w n = Returns false ->
  n < fuel ->
  run_scan w fuel path url hm ko =
    ((preamble path url hm ko ++ t ++ t' ++
      [Stderr "[SCANNER] Browser lifecycle - is_existing: False, keep_open: True";
       Stderr "[SCANNER] Browser launched. Keeping open for CDP access...";
       Stderr "[SCANNER] Browser will stay open until manually closed by user"] ++
      rounds n LaunchedBrowser ++
      [Call (IsConnected LaunchedBrowser);
       Stderr "[SCANNER] Browser was closed by user";
       Call StopPlaywright])%list,
     Val tt).
Proof.
  intros Hread Hstart Hres Hflag Hscan Hkeep Hc Hd Hfuel.
  rewrite (run_scan_session w fuel path url hm ko js t s Hread Hstart Hres).
  cbv zeta. rewrite (bind_val _ _ _ _ Hscan).
  assert (Hb : s_browser s = LaunchedBrowser).
  { destruct (resolve_session_val w url hm t s Hres) as [[_ H] | [H _]];
      [congruence | exact H]. }
  rewrite (finalize_keep_open w fuel ko s Hflag Hkeep). rewrite Hb. cbv zeta.
  rewrite (poll_disconnected w fuel LaunchedBrowser 0 n);
    [ | intros j Hj; apply Hc; lia | exact Hd | exact Hfuel].
  cbn [bind log try_except fst snd conclude].
  list_norm. reflexivity.
Qed.

(** X14.  With a launched browser kept open, a [KeyboardInterrupt] raised
    by a poll or by a sleep ends the loop; the interruption is logged,
    Playwright is stopped and the script ends normally. *)
Theorem interrupt_ends_polling fuel path url hm ko js t s t' n e :
  w_read_file w path = Returns js ->
  w_start_playwright w = Returns tt ->
  resolve_session w url hm = (t, Val s) ->
  s_is_existing s = false ->
  scan w (s_page s) js = (t', Val tt) ->
  String.eqb (lower ko) "true" = true ->
  (forall j, j < n ->
             w_is_connected w j = Returns true /\ w_sleep w j = Returns tt) ->
  w_is_connected w n = Raises e \/
  (w_is_connected w n = Returns true /\ w_sleep w n = Raises e) ->
  is_KeyboardInterrupt e = true ->
  n < fuel ->
  snd (run_scan w fuel path url hm ko) = Val tt /\
  exists before,
    fst (run_scan w fuel path url hm ko) =
      (before ++ [Stderr "[SCANNER] Scan interrupted by user";
                  Call StopPlaywright])%list.
Proof.
  intros Hread Hstart Hres Hflag Hscan Hkeep Hc Hr He Hfuel.
  rewrite (run_scan_session w fuel path url hm ko js t s Hread Hstart Hres).
  cbv zeta. rewrite (bind_val _ _ _ _ Hscan).
  rewrite (finalize_keep_open w fuel ko s Hflag Hkeep). cbv zeta.
  destruct (poll_raises fuel (s_browser s) 0 n e) as (last & Hp & _);
    [intros j Hj; apply Hc; lia | exact Hr | exact Hfuel | ].
  rewrite (bind_exc _ _ _ _ Hp).
  cbn [try_except select_clause]. rewrite He.
  cbn [log fst snd conclude]. split; [reflexivity | ].
  exists (preamble path url hm ko ++ t ++ t' ++
          [Stderr "[SCANNER] Browser lifecycle - is_existing: False, keep_open: True";
           Stderr "[SCANNER] Browser launched. Keeping open for CDP access...";
           Stderr "[SCANNER] Browser will stay open until manually closed by user"] ++
          rounds n (s_browser s) ++ last)%list.
  list_norm. reflexivity.
Qed.

(** X15.  With a launched browser kept open, an [Exception] raised by a
    poll or by a sleep ends the loop as well; it is logged as a browser
    monitoring error, Playwright is stopped and the script ends normally. *)
Theorem monitoring_error_ends_polling fuel path url hm ko js t s t' n e :
  w_read_file w path = Returns js ->
  w_start_playwright w = Returns tt ->
  resolve_session w url hm = (t, Val s) ->
  s_is_existing s = false ->
  scan w (s_page s) js = (t', Val tt) ->
  String.eqb (lower ko) "true" = true ->
  (forall j, j < n ->
             w_is_connected w j = Returns true /\ w_sleep w j = Returns tt) ->
  w_is_connected w n = Raises e \/
  (w_is_connected w n = Returns true /\ w_sleep w n = Raises e) ->
  is_Exception e = true ->
  n < fuel ->
  snd (run_scan w fuel path url hm ko) = Val tt /\
  exists before,
    fst (run_scan w fuel path url hm ko) =
      (before ++ [Stderr ("[SCANNER] Browser monitoring error: " ++ exc_str e);
                  Call StopPlaywright])%list.
Proof.
  intros Hread Hstart Hres Hflag Hscan Hkeep Hc Hr He Hfuel.
  assert (Hk : is_KeyboardInterrupt e = false).
  { unfold is_Exception in He. unfold is_KeyboardInterrupt.
    destruct (exc_cls e); try discriminate; reflexivity. }
  rewrite (run_scan_session w fuel path url hm ko js t s Hread Hstart Hres).
  cbv zeta. rewrite (bind_val _ _ _ _ Hscan).
  rewrite (finalize_keep_open w fuel ko s Hflag Hkeep). cbv zeta.
  destruct (poll_raises fuel (s_browser s) 0 n e) as (last & Hp & _);
    [intros j Hj; apply Hc; lia | exact Hr | exact Hfuel | ].
  rewrite (bind_exc _ _ _ _ Hp).
  cbn [try_except select_clause]. rewrite Hk, He.
  cbn [log fst snd conclude]. split; [reflexivity | ].
  exists (preamble path url hm ko ++ t ++ t' ++
          [Stderr "[SCANNER] Browser lifecycle - is_existing: False, keep_open: True";
           Stderr "[SCANNER] Browser launched. Keeping open for CDP access...";
           Stderr "[SCANNER] Browser will stay open until manually closed by user"] ++
          rounds n (s_browser s) ++ last)%list.
  list_norm. reflexivity.
Qed.

End Polling.

Lemma run_ends_when_browser_disconnects_witness :
  run_scan fresh_world 9 "scanner.js" "" "false" "true" =
    ((preamble "scanner.js" "" "false" "true" ++
      fst (resolve_session fresh_world "" "false") ++
      fst (scan fresh_world sample_page "scanner") ++
      [Stderr "[SCANNER] Browser lifecycle - is_existing: False, keep_open: True";
       Stderr "[SCANNER] Browser launched. Keeping open for CDP access...";
       Stderr "[SCANNER] Browser will stay open until manually closed by user"] ++
      rounds 2 LaunchedBrowser ++
      [Call (IsConnected LaunchedBrowser);
       Stderr "[SCANNER] Browser was closed by user";
       Call StopPlaywright])%list,
     Val tt).
Proof.
  refine (run_ends_when_browser_disconnects fresh_world 9 "scanner.js" ""
            "false" "true" "scanner" _
            (MkSession LaunchedBrowser sample_page false) _ 2
            eq_refl eq_refl eq_refl eq_refl eq_refl eq_refl _ eq_refl _).
  - intros [ | [ | j]] Hj; [split; reflexivity .. | lia].
  - lia.
Defined.

Lemma interrupt_ends_polling_witness :
  let w := with_polling fresh_world (fun _ => Returns true)
             (fun i => if (i =? 1)%nat then Raises interrupt else Returns tt) in
  snd (run_scan w 9 "scanner.js" "" "false" "true") = Val tt /\
  exists before,
    fst (run_scan w 9 "scanner.js" "" "false" "true") =
      (before ++ [Stderr "[SCANNER] Scan interrupted by user";
                  Call StopPlaywright])%list.
Proof.
  refine (interrupt_ends_polling
            (with_polling fresh_world (fun _ => Returns true)
               (fun i => if (i =? 1)%nat then Raises interrupt else Returns tt))
            9 "scanner.js" "" "false" "true" "scanner" _
            (MkSession LaunchedBrowser sample_page false) _ 1 interrupt
            eq_refl eq_refl eq_refl eq_refl eq_refl eq_refl _
            (or_intror (conj eq_refl eq_refl)) eq_refl _).
  - intros [ | j] Hj; [split; reflexivity | lia].
  - lia.
Defined.

Lemma monitoring_error_ends_polling_witness :
  snd (run_scan monitor_error_world 3 "scanner.js" "" "false" "true") = Val tt /\
  exists before,
    fst (run_scan monitor_error_world 3 "scanner.js" "" "false" "true") =
      (before ++ [Stderr "[SCANNER] Browser monitoring error: Target closed";
                  Call StopPlaywright])%list.
Proof.
  refine (monitoring_error_ends_polling monitor_error_world 3 "scanner.js" ""
            "false" "true" "scanner" _
            (MkSession LaunchedBrowser sample_page false) _ 0 target_closed
            eq_refl eq_refl eq_refl eq_refl eq_refl eq_refl _
            (or_introl eq_refl) eq_refl _).
  - intros j Hj. lia.
  - lia.
Defined.

(** *** The session resolver *)

(** X16.  A failure after a successful attach is handled like a failed
    attach: when the attached browser has no page to reuse and opening one
    raises an [Exception], the script goes on to launch a browser of its
    own, with the error shown in the no-browser-found line. *)
Theorem attach_failure_falls_back_to_launch w url hm e :
  w_connect_over_cdp w endpoint = Returns tt ->
  w_contexts w = [] \/ (exists ctxs, w_contexts w = [] :: ctxs) ->
  w_new_page w AttachedBrowser = Raises e ->
  is_Exception e = true ->
  resolve_session w url hm =
    (Stderr ("[SCANNER] Attempting to connect to existing browser on port " ++
             str_of_Z DEBUG_PORT ++ "...")
     :: Call (ConnectOverCdp endpoint)
     :: Stderr "[SCANNER] SUCCESS - Connected to existing browser"
     :: Call (NewPage AttachedBrowser)
     :: fst (launch_new w url hm e),
     snd (launch_new w url hm e)).
Proof.
  intros Hc Hctx Hn He. unfold resolve_session, attach_existing. fold endpoint.
  rewrite (bind_request_returns _ _ _ _ Hc). cbn [fst snd].
  rewrite bind_log. cbn [fst snd].
  assert (Hbody : forall k : page -> M session,
            match w_contexts w with
            | (pg :: _) :: _ =>
                log ("[SCANNER] Using existing page: " ++ page_url pg);;
                ret (MkSession AttachedBrowser pg true)
            | _ =>
                pg <- request (NewPage AttachedBrowser) (w_new_page w AttachedBrowser);;
                k pg
            end = ([Call (NewPage AttachedBrowser)], Exc e)).
  { intros k. destruct Hctx as [Hctx | [ctxs Hctx]]; rewrite Hctx;
      apply (bind_request_raises _ _ _ _ Hn). }
  rewrite Hbody. rewrite bind_log.
  cbn [try_except select_clause fst snd]. rewrite He.
  destruct (launch_new w url hm e) as [tl rl]. reflexivity.
Qed.

Lemma attach_failure_falls_back_to_launch_witness :
  snd (resolve_session attach_then_fail_world "" "false") =
    Val (MkSession LaunchedBrowser sample_page false) /\
  existsb is_launch
    (calls_of (fst (resolve_session attach_then_fail_world "" "false"))) = true.
Proof.
  rewrite (attach_failure_falls_back_to_launch attach_then_fail_world ""
             "false" target_closed eq_refl (or_introl eq_refl) eq_refl eq_refl).
  split; reflexivity.
Defined.

(** *** The main flow and the watchdog *)

(** X18.  The main flow never ends the process by [os._exit]: no run of
    [run_scan] issues that call or ends that way; only the watchdog does. *)
Theorem main_flow_never_hard_exits w fuel path url hm ko :
  soft (snd (run_scan w fuel path url hm ko)) /\
  Forall not_os_exit (fst (run_scan w fuel path url hm ko)).
Proof.
  split.
  - unfold run_scan, with_playwright.
    apply soft_bind; [exact I | intros _].
    apply soft_bind; [exact I | intros _].
    apply soft_try_except; [ | soft_clauses; exact I].
    apply soft_bind; [apply soft_request | intros js].
    apply soft_bind; [apply soft_request | intros _].
    pose proof (session_body_soft w fuel url hm ko js) as H.
    destruct (s <- resolve_session w url hm;;
              scan w (s_page s) js;; finalize w fuel ko s) as [t [[] | e | c | ]];
      exact H.
  - apply run_scan_always; try (intros; exact I).
    + unfold resolve_session, attach_existing, launch_new.
      always_walk ltac:(exact I).
    + intros pg js. unfold scan, print_json, py_len. always_walk ltac:(exact I).
    + intros t s _. unfold finalize. always_walk ltac:(exact I).
Qed.

(** X19.  When injecting the scanner script raises, whatever is raised,
    the entry point is not called: the injection is the only call of the
    scan phase. *)
Theorem failed_injection_skips_entry_point w pg js e :
  w_evaluate w 0 pg js = Raises e ->
  calls_of (fst (scan w pg js)) = [Evaluate pg js].
Proof.
  intros H0. unfold scan. rewrite bind_log.
  rewrite (bind_request_raises _ _ _ _ H0). cbn.
  destruct (is_Exception e); reflexivity.
Qed.

Lemma failed_injection_skips_entry_point_witness :
  calls_of (fst (scan (with_evaluate fresh_world (fun _ _ _ => Raises interrupt))
                      sample_page "scanner"))
  = [Evaluate sample_page "scanner"].
Proof.
  apply (failed_injection_skips_entry_point
           (with_evaluate fresh_world (fun _ _ _ => Raises interrupt))
           sample_page "scanner" interrupt).
  reflexivity.
Defined.

(** X20.  What the scan phase raises that is no [Exception], an interrupt
    during the injection for one, is taken by no handler: the failure is
    not logged, the finalizer is skipped, so that a launched browser is
    neither closed nor polled, Playwright is stopped, no critical-error
    line is written and the exception leaves [run_scan]. *)
Theorem interrupted_injection_skips_finalizer w fuel path url hm ko js t s e :
  w_read_file w path = Returns js ->
  w_start_playwright w = Returns tt ->
  resolve_session w url hm = (t, Val s) ->
  w_evaluate w 0 (s_page s) js = Raises e ->
  is_Exception e = false ->
  run_scan w fuel path url hm ko =
    ((preamble path url hm ko ++ t ++
      [Stderr "[SCANNER] Starting DOM scan...";
       Call (Evaluate (s_page s) js);
       Call StopPlaywright])%list,
     Exc e).
Proof.
  intros Hread Hstart Hres H0 He.
  assert (Hscan : scan w (s_page s) js =
                    ([Stderr "[SCANNER] Starting DOM scan...";
                      Call (Evaluate (s_page s) js)], Exc e)).
  { unfold scan. rewrite (bind_request_raises _ _ _ _ H0). cbn. rewrite He.
    reflexivity. }
  rewrite (run_scan_scan_raises w fuel path url hm ko js t s _ e
             Hread Hstart Hres Hscan).
  reflexivity.
Qed.

Lemma interrupted_injection_skips_finalizer_witness :
  let w := with_evaluate fresh_world (fun _ _ _ => Raises interrupt) in
  let r := run_scan w 3 "scanner.js" "" "false" "true" in
  snd r = Exc interrupt /\
  existsb is_poll (calls_of (fst r)) = false /\
  existsb is_close (calls_of (fst r)) = false.
Proof.
  cbv zeta.
  rewrite (interrupted_injection_skips_finalizer
             (with_evaluate fresh_world (fun _ _ _ => Raises interrupt))
             3 "scanner.js" "" "false" "true" "scanner" _
             (MkSession LaunchedBrowser sample_page false) interrupt
             eq_refl eq_refl eq_refl eq_refl eq_refl).
  repeat split.
Defined.

(** *** The process *)

(** X21.  While the read of the watchdog does not return (the parent
    keeps standard input open), the thread changes nothing: whatever the
    turns of the two threads, the process ends as the main flow does and
    the two channels receive what the main flow writes. *)
Theorem open_stdin_leaves_main_flow_alone w sch fuel argv :
  w_stdin_read w = None ->
  let m := main w fuel argv in
  let p := process w sch m in
  snd p = snd m /\
  stderr_of (fst p) = stderr_of (fst m) /\
  stdout_of (fst p) = stdout_of (fst m).
Proof.
  intros Hopen m p. apply process_unwatched.
  intros code Hexit.
  destruct (watchdog_exit_code w code Hexit)
    as [(_ & data & H) | (_ & e & H & _)]; congruence.
Qed.

Lemma open_stdin_leaves_main_flow_alone_witness :
  let m := main fresh_world 9 ["runner.py"; "scanner.js"; ""; "false"; "false"] in
  let p := process fresh_world
             [MainTurn; MainTurn; WatchdogTurn; MainTurn; WatchdogTurn; WatchdogTurn]
             m in
  snd p = snd m /\
  stderr_of (fst p) = stderr_of (fst m) /\
  stdout_of (fst p) = stdout_of (fst m).
Proof.
  apply (open_stdin_leaves_main_flow_alone fresh_world
           [MainTurn; MainTurn; WatchdogTurn; MainTurn; WatchdogTurn; WatchdogTurn]
           9 ["runner.py"; "scanner.js"; ""; "false"; "false"]).
  reflexivity.
Defined.

(** X22.  Whatever the turns of the two threads, the process ends as the
    main flow does or is ended by the watchdog: with status 0 when the read
    on standard input has returned, with status 1 when it has raised an
    [Exception].  When the watchdog ends it, the two channels have received
    a leading part of what the main flow writes. *)
Theorem process_ends_as_main_flow_or_by_watchdog w sch fuel argv :
  let m := main w fuel argv in
  let p := process w sch m in
  (snd p = snd m /\
   stderr_of (fst p) = stderr_of (fst m) /\
   stdout_of (fst p) = stdout_of (fst m)) \/
  (exists code,
     snd p = HardExit code /\
     ((code = 0%Z /\ exists data, w_stdin_read w = Some (Returns data)) \/
      (code = 1%Z /\ exists e, w_stdin_read w = Some (Raises e) /\
                              is_Exception e = true)) /\
     leading_lines (stderr_of (fst p)) (stderr_of (fst m)) /\
     leading_part (stdout_of (fst p)) (stdout_of (fst m))).
Proof.
  intros m p.
  destruct (process_cases w sch m) as [H | (code & Hs & Hw & Hl)].
  - left. exact H.
  - right. exists code. split; [exact Hs | ].
    split; [exact (watchdog_exit_code w code Hw) | exact Hl].
Qed.
